(** * MEGA public-link downloader: key derivation, attribute and node-key
      decryption, node-tree resolution and streaming AES-CTR download.

    Shallow embedding of [src/utils/mega.py].  Python values are modelled
    as follows:
    - [bytes] is a [list Z] whose elements lie in [0, 256);
    - a 32-bit word array ([List[int]]) is a [list Z];
    - a [str] is a [string];
    - a [dict] keyed by node handles is a [gmap];
    - a function that may raise returns a [result];
    - a local variable that may be unbound is an [option]. *)

From Stdlib Require Import ZArith Ascii String Sorted.
From stdpp Require Import base option list strings pretty gmap sets relations.

Local Open Scope Z_scope.

(** ** Exceptions and the error monad *)

Inductive exn : Type :=
  | ValidationError (msg : string)   (* mega.ValidationError *)
  | NetworkError (msg : string)      (* mega.NetworkError *)
  | UnboundLocalError (var : string) (* read of a local that was never assigned *)
  | OverflowError                    (* int.to_bytes out of range, CTR counter wrap *)
  | ValueError                       (* Crypto: bad key/nonce/data length; non-ASCII base64 text *)
  | BinasciiError                    (* binascii.Error from base64.b64decode *)
  | AttributeError                   (* attribute lookup on a value that lacks it *)
  | OSError (name : string)          (* FileNotFoundError, IsADirectoryError, ...: the file system *)
  | NonTermination                   (* not an exception: the loop never exits *)
  | OtherError (msg : string).       (* anything else the environment raises *)

Inductive result (A : Type) : Type :=
  | Ok (a : A)
  | Raise (e : exn).
Arguments Ok {A} a.
Arguments Raise {A} e.

#[global] Instance result_ret : MRet result := @Ok.
#[global] Instance result_bind : MBind result :=
  λ A B f m, match m with Ok a => f a | Raise e => Raise e end.
#[global] Instance result_fmap : FMap result :=
  λ A B f m, match m with Ok a => Ok (f a) | Raise e => Raise e end.

(** [try: ... except Exception: <default>] *)
Definition try_except {A} (m : result A) (default : A) : A :=
  match m with Ok a => a | Raise _ => default end.

(** Left-to-right traversal that stops at the first exception. *)
Fixpoint mapM_result {A B} (f : A → result B) (l : list A) : result (list B) :=
  match l with
  | [] => Ok []
  | x :: l' => y ← f x; ys ← mapM_result f l'; Ok (y :: ys)
  end.

(** ** Bytes *)

Abbreviation bytes := (list Z).

Definition is_byte (b : Z) : Prop := 0 ≤ b < 256.

(** [int.from_bytes(b, "big")] *)
Definition from_bytes_big (b : bytes) : Z :=
  fold_left (λ acc x, Z.lor (Z.shiftl acc 8) x) b 0.

(** [x.to_bytes(4, "big")]: raises OverflowError outside [0, 2^32). *)
Definition to_bytes4 (x : Z) : result bytes :=
  if (0 <=? x) && (x <? 2 ^ 32) then
    Ok [Z.land (Z.shiftr x 24) 255; Z.land (Z.shiftr x 16) 255;
        Z.land (Z.shiftr x 8) 255; Z.land x 255]
  else Raise OverflowError.

(** [bytes(x ^ y for x, y in zip(a, b))] and the word-level [^] *)
Definition xor_zip (a b : list Z) : list Z := zip_with Z.lxor a b.

(** ** Standard-library base64 (model of [base64.b64decode], non-validating)

    [binascii.a2b_base64] in its default mode skips characters outside the
    alphabet, stops at a complete pad sequence and raises [binascii.Error]
    when the data characters do not fill a quad. *)

Module Base64.

Definition value (c : ascii) : option Z :=
  let n := Z.of_nat (nat_of_ascii c) in
  if (65 <=? n) && (n <=? 90) then Some (n - 65)
  else if (97 <=? n) && (n <=? 122) then Some (n - 71)
  else if (48 <=? n) && (n <=? 57) then Some (n + 4)
  else if n =? 43 then Some 62
  else if n =? 47 then Some 63
  else None.

Definition is_pad (c : ascii) : bool := (nat_of_ascii c =? 61)%nat.

Fixpoint a2b (s : list ascii) (quad_pos : nat) (leftchar : Z) (pads : nat)
    (out : bytes) : result bytes :=
  match s with
  | [] => if (quad_pos =? 0)%nat then Ok out else Raise BinasciiError
  | c :: s' =>
    if is_pad c then
      if (2 <=? quad_pos)%nat then
        if (4 <=? quad_pos + S pads)%nat then Ok out
        else a2b s' quad_pos leftchar (S pads) out
      else a2b s' quad_pos leftchar pads out
    else
      match value c with
      | None => a2b s' quad_pos leftchar pads out
      | Some v =>
        match quad_pos with
        | 0%nat => a2b s' 1%nat v 0%nat out
        | 1%nat =>
          a2b s' 2%nat (Z.land v 15) 0%nat
            (out ++ [Z.lor (Z.shiftl leftchar 2) (Z.shiftr v 4)])
        | 2%nat =>
          a2b s' 3%nat (Z.land v 3) 0%nat
            (out ++ [Z.lor (Z.shiftl leftchar 4) (Z.shiftr v 2)])
        | _ =>
          a2b s' 0%nat 0 0%nat (out ++ [Z.lor (Z.shiftl leftchar 6) v])
        end
      end
  end.

Definition is_ascii (c : ascii) : bool := (nat_of_ascii c <? 128)%nat.

(** [base64.b64decode(s)] for a [str] argument: the text is first encoded
    as ASCII (ValueError otherwise), then decoded. *)
Definition b64decode (s : string) : result bytes :=
  let cs := list_ascii_of_string s in
  if forallb is_ascii cs then a2b cs 0%nat 0 0%nat [] else Raise ValueError.

End Base64.

(** ** Utils: MEGA b64 and keys *)

Definition str_replace_char (old new : ascii) (s : string) : string :=
  string_of_list_ascii
    (map (λ c, if Ascii.eqb c old then new else c) (list_ascii_of_string s)).

Definition str_repeat (c : ascii) (n : nat) : string :=
  string_of_list_ascii (repeat c n).

Definition _mega_b64_decode (s : string) : result bytes :=
  let s := str_replace_char "_" "/" (str_replace_char "-" "+" s) in
  let pad := ((4 - String.length s mod 4) mod 4)%nat in
  let s := (s +:+ str_repeat "=" pad)%string in
  Base64.b64decode s.

Fixpoint words_big (b : bytes) : list Z :=
  match b with
  | [] => []
  | b0 :: b1 :: b2 :: b3 :: r => from_bytes_big [b0; b1; b2; b3] :: words_big r
  | short => [from_bytes_big short]
  end.

Definition _bytes_to_a32 (b : bytes) : list Z :=
  let b := if (length b mod 4 =? 0)%nat then b
           else b ++ repeat 0 (4 - length b mod 4)%nat in
  words_big b.

Definition _a32_to_bytes (a : list Z) : result bytes :=
  @List.concat Z <$> mapM_result to_bytes4 a.

Definition _xor_a32 (a b : list Z) : list Z := xor_zip a b.

(** [_derive_key_iv_from_k]: the local [key] is assigned only in the two
    [if] bodies; the [iv]/[return] lines after the second [if] run for every
    length other than 4, and the trailing [raise] is never reached. *)
Definition _derive_key_iv_from_k (k_a32 : list Z) : result (bytes * bytes) :=
  if (length k_a32 =? 4)%nat then
    key ← _a32_to_bytes k_a32;
    Ok (key, repeat 0 8%nat)
  else
    key ← (if (8 <=? length k_a32)%nat then
             let key_a := take 4 k_a32 in
             let key_b := take 4 (drop 4 k_a32) in
             Some <$> _a32_to_bytes (_xor_a32 key_a key_b)
           else Ok None);
    iv ← _a32_to_bytes (take 2 (drop 4 k_a32));
    match key with
    | Some key => Ok (key, iv)
    | None => Raise (UnboundLocalError "key")
    end.

(** ** External libraries

    PyCryptodome's AES block transform, [json.loads] and [str] are not part
    of the repository; every statement below holds for any behaviour of
    theirs. *)

#[warnings="-register-all"]
Inductive json : Type :=
  | JNull
  | JBool (b : bool)
  | JInt (n : Z)
  | JFloat (is_zero : bool)
  | JStr (s : string)
  | JArr (items : list json)
  | JObj (items : list (string * json)).  (* a dict, keys distinct *)

Class ExternalLib : Type := {
  (** raw AES block transforms, key then 16-byte block *)
  aes_encrypt_block : bytes → bytes → bytes;
  aes_decrypt_block : bytes → bytes → bytes;
  (** [json.loads(b.decode("utf-8"))]; [None] when either call raises *)
  json_loads_utf8 : bytes → option json;
  (** [str(v)] for a decoded JSON value that is not a [str] *)
  py_repr : json → string;
  (** [re.search] with the two file-link patterns: groups 1 and 2 *)
  re_file_link : string → option (string * string);
  (** [re.search] with the two folder-link patterns: groups 1 and 2 *)
  re_folder_link : string → option (string * string);
  (** [re.findall(r"/folder/([a-zA-Z0-9_-]{8})", url)] *)
  re_folder_ids : string → list string;
  (** [re.search(r"#!F!", url)] is not None *)
  re_legacy_folder : string → bool;
}.

(** Python truthiness and [str] on decoded JSON values *)
Definition truthy (v : json) : bool :=
  match v with
  | JNull => false
  | JBool b => b
  | JInt n => negb (n =? 0)
  | JFloat z => negb z
  | JStr s => negb (String.eqb s "")
  | JArr l => match l with [] => false | _ => true end
  | JObj l => match l with [] => false | _ => true end
  end.

Fixpoint assoc_get {V} (k : string) (l : list (string * V)) : option V :=
  match l with
  | [] => None
  | (k', v) :: l' => if String.eqb k k' then Some v else assoc_get k l'
  end.

(** [d.get(k)] on a decoded value: AttributeError unless [d] is a dict. *)
Definition json_get (d : json) (k : string) : result json :=
  match d with
  | JObj items => Ok (default JNull (assoc_get k items))
  | _ => Raise AttributeError
  end.

(** ** AES modes of operation (PyCryptodome) *)

Definition aes_key_ok (key : bytes) : bool :=
  bool_decide (length key ∈ [16; 24; 32]%nat).

Section Modes.
Context `{ExternalLib}.

(** ECB: [AES.new(key, AES.MODE_ECB).decrypt(data)] *)
Fixpoint ecb_blocks (n : nat) (key data : bytes) : bytes :=
  match n with
  | O => []
  | S n' => aes_decrypt_block key (take 16 data) ++ ecb_blocks n' key (drop 16 data)
  end.

Definition aes_ecb_decrypt (key data : bytes) : result bytes :=
  if negb (aes_key_ok key) then Raise ValueError
  else if negb (length data mod 16 =? 0)%nat then Raise ValueError
  else Ok (ecb_blocks (length data / 16) key data).

(** CBC: [AES.new(key, AES.MODE_CBC, iv=iv).decrypt(data)] *)
Fixpoint cbc_blocks (n : nat) (key prev data : bytes) : bytes :=
  match n with
  | O => []
  | S n' =>
    xor_zip (aes_decrypt_block key (take 16 data)) prev
      ++ cbc_blocks n' key (take 16 data) (drop 16 data)
  end.

Definition aes_cbc_decrypt (key iv data : bytes) : result bytes :=
  if negb (aes_key_ok key) then Raise ValueError
  else if negb (length iv =? 16)%nat then Raise ValueError
  else if negb (length data mod 16 =? 0)%nat then Raise ValueError
  else Ok (cbc_blocks (length data / 16) key iv data).

(** CTR: [AES.new(key, AES.MODE_CTR, nonce=nonce, initial_value=0)].
    The counter block is the nonce followed by the big-endian block
    counter on the remaining [16 - len(nonce)] bytes; the cipher object
    remembers how many bytes it has processed. *)
Record ctr_cipher : Type := {
  ctr_key : bytes;
  ctr_nonce : bytes;
  ctr_pos : Z;
}.

Definition be_bytes (n : nat) (x : Z) : bytes :=
  map (λ j, Z.land (Z.shiftr x (8 * Z.of_nat j)) 255) (rev (seq 0 n)).

Definition ctr_counter_block (nonce : bytes) (i : Z) : bytes :=
  nonce ++ be_bytes (16 - length nonce) i.

Definition ctr_keystream_byte (key nonce : bytes) (p : Z) : Z :=
  nth (Z.to_nat (p mod 16))
      (aes_encrypt_block key (ctr_counter_block nonce (p / 16))) 0.

Fixpoint ctr_xor (key nonce : bytes) (pos : Z) (data : bytes) : bytes :=
  match data with
  | [] => []
  | b :: r => Z.lxor b (ctr_keystream_byte key nonce pos) :: ctr_xor key nonce (pos + 1) r
  end.

(** number of bytes the counter can cover before it wraps (16 * 2^64 for
    an 8-byte nonce); the library raises OverflowError past it *)
Definition ctr_capacity (nonce : bytes) : Z :=
  16 * 2 ^ (8 * Z.of_nat (16 - length nonce)).

Definition AES_new_CTR (key nonce : bytes) : result ctr_cipher :=
  if negb (aes_key_ok key) then Raise ValueError
  else if (16 <=? length nonce)%nat then Raise ValueError
  else Ok {| ctr_key := key; ctr_nonce := nonce; ctr_pos := 0 |}.

(** [cipher.decrypt(chunk)]: the output and the advanced cipher state *)
Definition ctr_decrypt (c : ctr_cipher) (chunk : bytes) : result (bytes * ctr_cipher) :=
  let pos' := ctr_pos c + Z.of_nat (length chunk) in
  if ctr_capacity (ctr_nonce c) <? pos' then Raise OverflowError
  else Ok (ctr_xor (ctr_key c) (ctr_nonce c) (ctr_pos c) chunk,
           {| ctr_key := ctr_key c; ctr_nonce := ctr_nonce c; ctr_pos := pos' |}).

(** ** Attribute decryption *)

Definition MEGA_marker : bytes := [77; 69; 71; 65].

Definition startswith (b pre : bytes) : bool :=
  bool_decide (take (length pre) b = pre).

Fixpoint lstrip0 (b : bytes) : bytes :=
  match b with
  | [] => []
  | x :: r => if x =? 0 then lstrip0 r else b
  end.

(** [rstrip] of trailing NUL bytes *)
Definition rstrip0 (b : bytes) : bytes := rev (lstrip0 (rev b)).

Definition _decrypt_attrs (attr_b64 : string) (key_bytes : bytes) : result json :=
  data ← _mega_b64_decode attr_b64;
  dec ← aes_cbc_decrypt key_bytes (repeat 0 16%nat) data;
  if negb (startswith dec MEGA_marker) then Ok (JObj [])
  else
    let dec := drop 4 dec in
    let dec := rstrip0 dec in
    Ok (default (JObj []) (json_loads_utf8 dec)).

End Modes.

(** ** Paths ([pathlib.PurePosixPath])

    A path is the list of its [parts]; an absolute path starts with its
    root part. *)

Abbreviation Path := (list string).

(** [s.split(sep)] for a one-character separator *)
Fixpoint split_on (sep : ascii) (s : string) : list string :=
  match s with
  | EmptyString => [EmptyString]
  | String c s' =>
    if Ascii.eqb c sep then EmptyString :: split_on sep s'
    else match split_on sep s' with
         | [] => [String c EmptyString]
         | w :: ws => String c w :: ws
         end
  end.

Definition path_components (s : string) : list string :=
  filter (λ x, x ≠ "" ∧ x ≠ ".") (split_on "/" s).

Definition path_root (s : string) : option string :=
  if String.prefix "///" s then Some "/"
  else if String.prefix "//" s then Some "//"
  else if String.prefix "/" s then Some "/"
  else None.

(** [p / s] for a string segment *)
Definition path_div (p : Path) (s : string) : Path :=
  match path_root s with
  | Some r => r :: path_components s
  | None => p ++ path_components s
  end.

(** [Path] applied to a sequence of segments *)
Definition Path_of (args : list string) : Path := fold_left path_div args [].

Definition path_is_absolute (p : Path) : bool :=
  match p with
  | r :: _ => String.eqb r "/" || String.eqb r "//"
  | [] => false
  end.

(** [a / b] for two paths *)
Definition path_join (a b : Path) : Path :=
  if path_is_absolute b then b else a ++ b.

(** [p.parent] *)
Definition path_parent (p : Path) : Path :=
  match p with
  | [_] => if path_is_absolute p then p else []
  | _ => removelast p
  end.

(** [str(p)] *)
Definition path_str (p : Path) : string :=
  match p with
  | [] => "."
  | r :: rest =>
    if path_is_absolute p then r +:+ String.concat "/" rest
    else String.concat "/" p
  end.

(** ** Folder listing nodes

    A listing entry is either not a dict or a dict of which the code reads
    the keys [h], [p], [t], [k] and [a]; a field is [None] when the key is
    absent (or holds [None]).  Handles, parents, key and attribute blobs are
    strings and the type tag is an integer, as the API sends them. *)

Record node : Type := {
  node_h : option string;
  node_p : option string;
  node_t : option Z;
  node_k : option string;
  node_a : option string;
}.

Inductive entry : Type :=
  | NotDict
  | Dict (n : node).

(** truthiness of the dict: non-empty (an entry carries no key besides
    the five above) *)
Definition node_truthy (n : node) : bool :=
  bool_decide (is_Some (node_h n)) || bool_decide (is_Some (node_p n))
  || bool_decide (is_Some (node_t n)) || bool_decide (is_Some (node_k n))
  || bool_decide (is_Some (node_a n)).

Definition str_truthy (s : string) : bool := negb (String.eqb s "").
Definition bytes_truthy (b : bytes) : bool :=
  match b with [] => false | _ => true end.

Fixpoint foldM_result {A S} (f : S → A → result S) (s : S) (l : list A) : result S :=
  match l with
  | [] => Ok s
  | x :: l' => s' ← f s x; foldM_result f s' l'
  end.

(** [by_h[n.get("h")] = n] for every dict entry, later entries win *)
Definition index_nodes (nodes : list entry) : gmap (option string) node :=
  fold_left (λ m e, match e with
                    | Dict n => <[node_h n := n]> m
                    | NotDict => m
                    end) nodes ∅.

(** [children_map.setdefault(p, []).append(h)] *)
Definition children_step (m : gmap string (list string)) (e : entry)
    : gmap string (list string) :=
  match e with
  | Dict n =>
    match node_h n, node_p n with
    | Some h, Some p => <[p := default [] (m !! p) ++ [h]]> m
    | _, _ => m
    end
  | NotDict => m
  end.

Definition children_map (nodes : list entry) : gmap string (list string) :=
  fold_left children_step nodes ∅.

(** The [while stack:] loop.  The stack is kept top-first: [stack.pop()]
    takes the head, and appending the children in order puts the last child
    on top. *)
Fixpoint walk (fuel : nat) (children : gmap string (list string))
    (stack : list string) (allowed : gset string) : result (gset string) :=
  match fuel with
  | O => Raise NonTermination
  | S fuel' =>
    match stack with
    | [] => Ok allowed
    | cur :: stack' =>
      if bool_decide (cur ∈ allowed) then walk fuel' children stack' allowed
      else walk fuel' children
             (rev (default [] (children !! cur)) ++ stack')
             ({[cur]} ∪ allowed)
    end
  end.

Definition descendants (nodes : list entry) (target : string) : result (gset string) :=
  walk (length nodes + 2) (children_map nodes) [target] ∅.

(** [allowed]: [None] unless a target subfolder is given and indexed *)
Definition target_active (by_h : gmap (option string) node)
    (target_subfolder : option string) : bool :=
  match target_subfolder with
  | Some t => str_truthy t && bool_decide (is_Some (by_h !! Some t))
  | None => false
  end.

Definition allowed_set (nodes : list entry) (by_h : gmap (option string) node)
    (target_subfolder : option string) : result (option (gset string)) :=
  match target_subfolder with
  | Some t =>
    if target_active by_h target_subfolder then Some <$> descendants nodes t
    else Ok None
  | None => Ok None
  end.

(** [full_path]: the parent-chain walk.  [fuel] bounds the iterations of the
    [while]; a chain without repeated nodes needs at most [size by_h]. *)
Fixpoint full_path_walk (fuel : nat) (by_h : gmap (option string) node)
    (names : gmap string string) (target_subfolder : option string)
    (cur : option node) (parts : list string) : result (list string) :=
  match fuel with
  | O => Raise NonTermination
  | S fuel' =>
    match cur with
    | None => Ok parts
    | Some c =>
      if node_truthy c && bool_decide (is_Some (by_h !! node_p c)) then
        let cur' := by_h !! node_p c in
        match cur' with
        | Some c' =>
          if node_truthy c' && bool_decide (node_t c' = Some 1) then
            let hid := node_h c' in
            let nm := default "" (hid ≫= λ x, names !! x) in
            let parts' := if str_truthy nm then parts ++ [nm] else parts in
            let at_target := match target_subfolder with
                             | Some t => str_truthy t && bool_decide (hid = Some t)
                             | None => false
                             end in
            if at_target then Ok parts'
            else full_path_walk fuel' by_h names target_subfolder cur' parts'
          else full_path_walk fuel' by_h names target_subfolder cur' parts
        | None => Ok parts
        end
      else Ok parts
    end
  end.

Definition full_path (by_h : gmap (option string) node) (names : gmap string string)
    (target_subfolder : option string) (h : string) : result Path :=
  parts ← full_path_walk (S (size by_h)) by_h names target_subfolder (by_h !! Some h) [];
  Ok (Path_of (rev parts)).

(** [parts.index(x)] when [x in parts] *)
Fixpoint list_index (x : string) (l : list string) : option nat :=
  match l with
  | [] => None
  | y :: l' => if String.eqb x y then Some O else S <$> list_index x l'
  end.

(** [names.get(h, h)] *)
Definition node_name (names : gmap string string) (h : string) : string :=
  default h (names !! h).

(** lines 434-443: the relative output path of file node [h] *)
Definition resolve_rel (by_h : gmap (option string) node) (names : gmap string string)
    (target_subfolder : option string) (h : string) : result Path :=
  let name := node_name names h in
  fp ← full_path by_h names target_subfolder h;
  let rel := path_div fp name in
  if target_active by_h target_subfolder then
    let parts := rel in
    match parts with
    | [] => Ok rel
    | _ =>
      let target_name := default "" (target_subfolder ≫= λ t, names !! t) in
      if str_truthy target_name then
        match list_index target_name parts with
        | Some idx => Ok (Path_of (drop idx parts))
        | None => Ok rel
        end
      else Ok rel
    end
  else Ok rel.

(** ** Environment and effects

    The remote API, the media server, the progress callbacks and the file
    system are the environment.  The world [W] is threaded through every
    request and every file-system call, so an answer may depend on
    everything done before.  Whether a directory can be created or a file
    opened is the file system's answer: it depends on the directories and
    files that exist, on the name (a component that is [..], too long or
    holds a NUL) and on permissions. *)

Record api_reply : Type := {
  reply_g : option string;   (* direct link, when key [g] is present *)
  reply_s : option Z;        (* size, when key [s] is present *)
  reply_at : option string;  (* attribute blob, when key [at] is present *)
}.

Inductive body_end : Type :=
  | BodyEof                   (* [iter_content] is exhausted *)
  | BodyError (msg : string). (* [iter_content] raised a RequestException *)

Inductive http_response : Type :=
  | HttpFailed (msg : string)  (* [requests.get] or [raise_for_status] raised *)
  | HttpStream (chunks : list bytes) (ending : body_end).

Class World (W : Type) : Type := {
  (** [_api_call([{"a": "g", "g": 1, "p": file_id}])[0]] *)
  api_file : W → string → W * result api_reply;
  (** the folder listing request, then [resp.get("f")] when it is a list *)
  api_folder : W → string → W * result (option (list entry));
  (** [_api_call([{"a": "g", "g": 1, "n": h}], query_params={"n": folder_id})[0]] *)
  api_node : W → string → string → W * result api_reply;
  (** [requests.get(g_url, stream=True, timeout=30)] and its body *)
  http_get : W → string → W * http_response;
  (** [p.mkdir(parents=True, exist_ok=True)]: returns, or raises (an
      [OSError] such as FileExistsError or NotADirectoryError, ValueError) *)
  fs_mkdir : W → Path → W * result ();
  (** [open(p, "wb")]: returns a handle, or raises (an [OSError] such as
      FileNotFoundError or IsADirectoryError, ValueError) *)
  fs_open : W → Path → W * result ();
}.

(** One call of [_emit]; the clock-derived arguments (percent, speed, eta)
    are floats and are left out. *)
Record event : Type := {
  ev_stage : string;
  ev_filename : option string;
  ev_total : option Z;
  ev_downloaded : option Z;
  ev_item_idx : option Z;
  ev_message : option string;
}.

Record io_state (W : Type) : Type := {
  io_world : W;
  io_events : list event;              (* calls of [_emit], oldest first *)
  io_files : gmap (list string) bytes; (* what was written to each file
                                          opened for writing, by its path *)
}.
Arguments io_world {W} _.
Arguments io_events {W} _.
Arguments io_files {W} _.

Definition M (W A : Type) : Type := io_state W → io_state W * result A.

Definition io_ret {W A} (a : A) : M W A := λ st, (st, Ok a).
Definition io_bind {W A B} (m : M W A) (k : A → M W B) : M W B :=
  λ st, match m st with
        | (st', Ok a) => k a st'
        | (st', Raise e) => (st', Raise e)
        end.
Definition io_raise {W A} (e : exn) : M W A := λ st, (st, Raise e).
Definition io_lift {W A} (r : result A) : M W A := λ st, (st, r).

Notation "x ⇐ m ; k" := (io_bind m (λ x, k))
  (at level 20, m at level 100, k at level 200, only parsing).
Notation "m ;; k" := (io_bind m (λ _, k))
  (at level 100, k at level 200, right associativity, only parsing).

Section Downloader.
Context `{ExternalLib} {W : Type} `{World W}.

(** [_emit]: both callbacks run inside [try/except Exception: pass], so a
    call never raises; the trace records its arguments *)
Definition _emit (ev : event) : M W () :=
  λ st, ({| io_world := io_world st; io_events := io_events st ++ [ev];
            io_files := io_files st |}, Ok ()).

(** the file behind a handle that [open(path, "wb")] has returned: it is
    empty, whatever it held before *)
Definition file_open (path : Path) : M W () :=
  λ st, ({| io_world := io_world st; io_events := io_events st;
            io_files := <[path := []]> (io_files st) |}, Ok ()).

(** [f.write(data)] *)
Definition file_write (path : Path) (data : bytes) : M W () :=
  λ st, ({| io_world := io_world st; io_events := io_events st;
            io_files := <[path := default [] (io_files st !! path) ++ data]> (io_files st) |},
         Ok ()).

Definition with_world {A} (f : W → W * A) : M W A :=
  λ st, let '(w, a) := f (io_world st) in
        ({| io_world := w; io_events := io_events st; io_files := io_files st |}, Ok a).

Definition call {A} (f : W → W * result A) : M W A :=
  r ⇐ with_world f; io_lift r.

(** [p.mkdir(parents=True, exist_ok=True)]: what it raises propagates *)
Definition mkdir_parents (p : Path) : M W () :=
  call (λ w, fs_mkdir w p).

(** [open(path, "wb")]: what it raises propagates (it is no
    [RequestException]); on success the file is empty *)
Definition open_wb (path : Path) : M W () :=
  call (λ w, fs_open w path);;
  file_open path.

Definition progress_event (stage : string) (filename : string) (total downloaded : Z)
    (item_idx : option Z) : event :=
  {| ev_stage := stage; ev_filename := Some filename; ev_total := Some total;
     ev_downloaded := Some downloaded; ev_item_idx := item_idx; ev_message := None |}.

(** the [for chunk in r.iter_content(...)] loop *)
Fixpoint stream_chunks (out_path : Path) (filename : string) (size : Z)
    (item_idx : option Z) (chunks : list bytes) (cipher : ctr_cipher)
    (downloaded : Z) : M W Z :=
  match chunks with
  | [] => io_ret downloaded
  | chunk :: rest =>
    if bytes_truthy chunk then
      r ⇐ io_lift (ctr_decrypt cipher chunk);
      let '(dec, cipher') := r in
      file_write out_path dec;;
      let downloaded' := downloaded + Z.of_nat (length dec) in
      _emit (progress_event "downloading" filename size downloaded' item_idx);;
      stream_chunks out_path filename size item_idx rest cipher' downloaded'
    else stream_chunks out_path filename size item_idx rest cipher downloaded
  end.

(** the [try: with requests.get(...) ... except RequestException] block *)
Definition fetch_body (g_url : string) (out_path : Path) (filename : string)
    (size : Z) (item_idx : option Z) (cipher : ctr_cipher) : M W () :=
  r ⇐ with_world (λ w, http_get w g_url);
  match r with
  | HttpFailed msg => io_raise (NetworkError msg)
  | HttpStream chunks ending =>
    open_wb out_path;;
    stream_chunks out_path filename size item_idx chunks cipher 0;;
    match ending with
    | BodyEof => io_ret ()
    | BodyError msg => io_raise (NetworkError msg)
    end
  end.

Fixpoint io_foldM {A S} (f : S → A → M W S) (s : S) (l : list A) : M W S :=
  match l with
  | [] => io_ret s
  | x :: l' => s' ⇐ f s x; io_foldM f s' l'
  end.

(** ** Link parsing *)

Fixpoint str_contains (needle s : string) : bool :=
  String.prefix needle s ||
  match s with
  | EmptyString => false
  | String _ s' => str_contains needle s'
  end.

Definition _parse_file_link (url : string) : result (string * list Z) :=
  match re_file_link url with
  | None => Raise (ValidationError "Invalid MEGA file URL")
  | Some (file_id, key) =>
    key_b ← _mega_b64_decode key;
    Ok (file_id, _bytes_to_a32 key_b)
  end.

Definition _parse_folder_link (url : string) : result (string * list Z) :=
  match re_folder_link url with
  | None => Raise (ValidationError "Invalid MEGA folder URL")
  | Some (folder_id, key) =>
    key_b ← _mega_b64_decode key;
    let k_a32 := _bytes_to_a32 key_b in
    let k_a32 := if (8 <=? length k_a32)%nat
                 then _xor_a32 (take 4 k_a32) (take 4 (drop 4 k_a32))
                 else k_a32 in
    Ok (folder_id, k_a32)
  end.

(** ** Single file *)

Definition py_str (v : json) : string :=
  match v with JStr s => s | _ => py_repr v end.

(** [str(attrs.get("n") or name)] *)
Definition name_from_attrs (attrs : json) (name : string) : result string :=
  v ← json_get attrs "n";
  Ok (if truthy v then py_str v else name).

(** lines 256-259 *)
Definition file_name (resp : api_reply) (key_bytes : bytes) : result string :=
  let name := "file" in
  match reply_at resp with
  | Some at_ =>
    attrs ← _decrypt_attrs at_ key_bytes;
    name_from_attrs attrs name
  | None => Ok name
  end.

(** [Path(dest_dir or ".")] *)
Definition out_dir_of (dest_dir : option string) : Path :=
  match dest_dir with
  | Some d => if str_truthy d then Path_of [d] else Path_of ["."]
  | None => Path_of ["."]
  end.

(** [download_file]; the result is [out_path] (before [resolve()], which
    depends on the working directory) *)
Definition download_file (file_url : string) (dest_dir : option string) : M W Path :=
  if negb (str_contains "mega.nz" file_url) then
    io_raise (ValidationError "Invalid MEGA URL")
  else
    r ⇐ io_lift (_parse_file_link file_url);
    let '(file_id, k_a32) := r in
    r ⇐ io_lift (_derive_key_iv_from_k k_a32);
    let '(key_bytes, iv8) := r in
    resp ⇐ call (λ w, api_file w file_id);
    match reply_g resp, reply_s resp with
    | Some g_url, Some size =>
      name ⇐ io_lift (file_name resp key_bytes);
      let out_dir := out_dir_of dest_dir in
      mkdir_parents out_dir;;
      let out_path := path_div out_dir name in
      _emit (progress_event "starting" name size 0 None);;
      cipher ⇐ io_lift (AES_new_CTR key_bytes iv8);
      fetch_body g_url out_path name size None cipher;;
      _emit (progress_event "done" name size size None);;
      io_ret out_path
    | _, _ => io_raise (ValidationError "MEGA API didn't return direct link or size")
    end.

(** ** Folder *)

(** [k.split(":")[-1]], decoded and decrypted with the shared key *)
Definition node_key_bytes (shared_key_bytes : bytes) (n : node) : option bytes :=
  match node_k n with
  | None => None
  | Some k =>
    try_except
      (let b64 := default "" (last (split_on ":" k)) in
       enc ← _mega_b64_decode b64;
       dec ← aes_ecb_decrypt shared_key_bytes enc;
       if (length dec =? 32)%nat
       then Ok (Some (xor_zip (take 16 dec) (take 16 (drop 16 dec))))
       else Ok (Some (take 16 dec)))
      None
  end.

(** [if not kb]: [None] or empty *)
Definition kb_usable (kb : option bytes) : bool :=
  match kb with Some b => bytes_truthy b | None => false end.

(** [nm = attrs.get("n") if isinstance(attrs, dict) else None], kept when
    [isinstance(nm, str) and nm] *)
Definition attrs_name (attrs : json) : option string :=
  match attrs with
  | JObj items =>
    match assoc_get "n" items with
    | Some (JStr s) => if str_truthy s then Some s else None
    | _ => None
    end
  | _ => None
  end.

(** one iteration of the name-decryption loop *)
Definition names_step (shared_key_bytes : bytes) (names : gmap string string)
    (e : entry) : result (gmap string string) :=
  match e with
  | NotDict => Ok names
  | Dict n =>
    match node_h n with
    | None => Ok names
    | Some h =>
      let kb := node_key_bytes shared_key_bytes n in
      match kb, node_a n with
      | Some kbytes, Some a =>
        if kb_usable kb then
          attrs ← _decrypt_attrs a kbytes;
          match attrs_name attrs with
          | Some nm => Ok (<[h := nm]> names)
          | None => Ok names
          end
        else Ok names
      | _, _ => Ok names
      end
    end
  end.

Definition decrypt_names (shared_key_bytes : bytes) (nodes : list entry)
    : result (gmap string string) :=
  foldM_result (names_step shared_key_bytes) ∅ nodes.

Record folder_ctx : Type := {
  cx_shared : bytes;                       (* shared_key_bytes *)
  cx_folder_id : string;
  cx_target : option string;               (* target_subfolder *)
  cx_out_dir : Path;
  cx_by_h : gmap (option string) node;
  cx_names : gmap string string;
  cx_allowed : option (gset string);
}.

(** the first three guards of the download loop: a dict with [t == 0], a
    string handle, and membership in [allowed] when scoping is active *)
Definition eligible (allowed : option (gset string)) (e : entry)
    : option (string * node) :=
  match e with
  | NotDict => None
  | Dict n =>
    if negb (bool_decide (node_t n = Some 0)) then None else
    match node_h n with
    | None => None
    | Some h =>
      if match allowed with
         | Some allowed => negb (bool_decide (h ∈ allowed))
         | None => false
         end
      then None else Some (h, n)
    end
  end.

(** one iteration of the download loop; [acc] is [(results, item_idx)] *)
Definition file_step (cx : folder_ctx) (acc : list Path * Z) (e : entry)
    : M W (list Path * Z) :=
  let '(results, item_idx) := acc in
  match eligible (cx_allowed cx) e with
  | None => io_ret acc
  | Some (h, n) =>
    let kb := node_key_bytes (cx_shared cx) n in
    match kb with
    | None => io_ret acc
    | Some kbytes =>
      if negb (kb_usable kb) then io_ret acc else
      let k_a32 := _bytes_to_a32 kbytes in
      r ⇐ io_lift (_derive_key_iv_from_k k_a32);
      let '(key_bytes, iv8) := r in
      rel ⇐ io_lift (resolve_rel (cx_by_h cx) (cx_names cx) (cx_target cx) h);
      mkdir_parents (path_join (cx_out_dir cx) (path_parent rel));;
      gi ⇐ call (λ w, api_node w (cx_folder_id cx) h);
      match reply_g gi, reply_s gi with
      | Some g_url, Some size =>
        let filename := path_str rel in
        let idx := Some (item_idx + 1) in
        _emit (progress_event "starting" filename size 0 idx);;
        cipher ⇐ io_lift (AES_new_CTR key_bytes iv8);
        fetch_body g_url (path_join (cx_out_dir cx) rel) filename size idx cipher;;
        _emit (progress_event "done" filename size size idx);;
        io_ret (results ++ [path_join (cx_out_dir cx) rel], item_idx + 1)
      | _, _ => io_ret acc
      end
    end
  end.

Definition file_loop (cx : folder_ctx) (nodes : list entry) : M W (list Path * Z) :=
  io_foldM (file_step cx) ([], 0) nodes.

Definition summary_event (results : list Path) : event :=
  {| ev_stage := "done"; ev_filename := None; ev_total := None;
     ev_downloaded := None; ev_item_idx := None;
     ev_message := Some (pretty (length results) +:+ " files") |}.

(** maps and scoping set built from the listing (lines 349-414) *)
Definition resolve_ctx (shared_key_bytes : bytes) (folder_id : string)
    (target_subfolder : option string) (out_dir : Path) (nodes : list entry)
    : result folder_ctx :=
  let by_h := index_nodes nodes in
  names ← decrypt_names shared_key_bytes nodes;
  allowed ← allowed_set nodes by_h target_subfolder;
  Ok {| cx_shared := shared_key_bytes; cx_folder_id := folder_id;
        cx_target := target_subfolder; cx_out_dir := out_dir;
        cx_by_h := by_h; cx_names := names; cx_allowed := allowed |}.

(** lines 416-506, over the loop entries [todo] *)
Definition run_folder (cx : folder_ctx) (todo : list entry) : M W (list Path) :=
  mkdir_parents (cx_out_dir cx);;
  acc ⇐ file_loop cx todo;
  _emit (summary_event acc.1);;
  io_ret acc.1.

(** lines 349-506 *)
Definition download_nodes (shared_key_bytes : bytes) (folder_id : string)
    (target_subfolder : option string) (out_dir : Path) (nodes : list entry)
    : M W (list Path) :=
  cx ⇐ io_lift (resolve_ctx shared_key_bytes folder_id target_subfolder out_dir nodes);
  run_folder cx nodes.

Definition download_folder (folder_url : string) (dest_dir : option string)
    : M W (list Path) :=
  if negb (str_contains "mega.nz" folder_url) then
    io_raise (ValidationError "Invalid MEGA URL")
  else
    r ⇐ io_lift (_parse_folder_link folder_url);
    let '(folder_id, shared_k_a32) := r in
    shared_key_bytes ⇐ io_lift (_a32_to_bytes shared_k_a32);
    let folder_ids_in_url := re_folder_ids folder_url in
    let target_subfolder := if (1 <? length folder_ids_in_url)%nat
                            then last folder_ids_in_url else None in
    nodes ⇐ call (λ w, api_folder w folder_id);
    match nodes with
    | None => io_raise (ValidationError "Failed to retrieve MEGA folder listing")
    | Some nodes =>
      download_nodes shared_key_bytes folder_id target_subfolder
        (out_dir_of dest_dir) nodes
    end.

(** autodetect *)
Definition download (url : string) (dest_dir : option string)
    : M W (Path + list Path) :=
  if negb (str_contains "mega.nz" url) then
    io_raise (ValidationError "Invalid MEGA URL")
  else if str_contains "/folder/" url || re_legacy_folder url then
    r ⇐ download_folder url dest_dir; io_ret (inr r)
  else
    r ⇐ download_file url dest_dir; io_ret (inl r).

End Downloader.

(** ** A stand-in library and a scripted environment

    Instances used to run the model on concrete inputs.  The block transform
    XORs a block with the first 16 key bytes; the JSON reader accepts the
    one-field objects that carry a node name. *)

Module Toy.

Definition xor_block (key block : bytes) : bytes := xor_zip block (take 16 key).

Definition string_of_bytes (b : bytes) : string :=
  string_of_list_ascii (map (λ x, ascii_of_nat (Z.to_nat x)) b).

Definition name_prefix : bytes := [123; 34; 110; 34; 58; 34].
Definition name_suffix : bytes := [34; 125].

Definition json_reader (b : bytes) : option json :=
  if bool_decide (b = [123; 125]) then Some (JObj [])
  else if bool_decide (take 6 b = name_prefix)
          && bool_decide (drop (length b - 2) b = name_suffix)
          && bool_decide (8 ≤ length b)%nat then
    let body := take (length b - 8) (drop 6 b) in
    if bool_decide (34 ∈ body) || bool_decide (92 ∈ body) then None
    else Some (JObj [("n", JStr (string_of_bytes body))])
  else None.

#[export] Instance lib : ExternalLib := {|
  aes_encrypt_block := xor_block;
  aes_decrypt_block := xor_block;
  json_loads_utf8 := json_reader;
  py_repr := λ _, "?";
  re_file_link := λ url,
    match split_on "#" url with
    | [l; key] => Some (string_of_list_ascii
                          (drop (String.length l - 8) (list_ascii_of_string l)), key)
    | _ => None
    end;
  re_folder_link := λ url,
    match split_on "#" url with
    | [l; key] => Some (string_of_list_ascii
                          (drop (String.length l - 8) (list_ascii_of_string l)), key)
    | _ => None
    end;
  re_folder_ids := λ _, [];
  re_legacy_folder := λ _, false;
|}.

(** canned replies; the world does not change *)
Record script : Type := {
  on_file : string → result api_reply;
  on_folder : string → result (option (list entry));
  on_node : string → string → result api_reply;
  on_get : string → http_response;
  on_mkdir : Path → result ();
  on_open : Path → result ();
}.

(** a file system in which every directory can be created and only the
    working directory itself cannot be opened as a file *)
Definition any_dir (p : Path) : result () := Ok ().
Definition any_file (p : Path) : result () :=
  match p with
  | [] => Raise (OSError "IsADirectoryError")
  | _ => Ok ()
  end.

#[export] Instance world : World script := {|
  api_file := λ w file_id, (w, on_file w file_id);
  api_folder := λ w folder_id, (w, on_folder w folder_id);
  api_node := λ w folder_id h, (w, on_node w folder_id h);
  http_get := λ w url, (w, on_get w url);
  fs_mkdir := λ w p, (w, on_mkdir w p);
  fs_open := λ w p, (w, on_open w p);
|}.

Definition start (w : script) : io_state script :=
  {| io_world := w; io_events := []; io_files := ∅ |}.

End Toy.

(** ** The synthetic listing root -> A -> B -> f.txt *)

Module Tree.

Definition shared_key : bytes := [1;2;3;4;5;6;7;8;9;10;11;12;13;14;15;16].

Definition root : node := {|
  node_h := Some "hRoot"; node_p := None; node_t := Some 1;
  node_k := Some "hRoot:EBMSFRQXFhkYGxodHB8eAQ";
  node_a := Some "XFRWUGozfzMrM2N-fmUzbA" |}.
Definition A : node := {|
  node_h := Some "hA"; node_p := Some "hRoot"; node_t := Some 1;
  node_k := Some "hA:IyAhJickJSorKCkuLywtMg";
  node_a := Some "b2dlY1kATAAYAGMAXyIiIg" |}.
Definition B : node := {|
  node_h := Some "hB"; node_p := Some "hA"; node_t := Some 1;
  node_k := Some "hB:MjEwNzY1NDs6OTg_Pj08Iw";
  node_a := Some "fnZ0ckgRXREJEXERTjMzMw" |}.
Definition f : node := {|
  node_h := Some "hF"; node_p := Some "hB"; node_t := Some 0;
  node_k := Some "hF:QkFAR0ZFREtKSUhPTk1MUwYFBAMCAQAPDg0MCwoJCBc";
  node_a := Some "CQEDBT9mKmZ-ZiJqMDwwZjBFR0F7Im4iOiJmLnR4dCI" |}.

(** a second file, directly under A (outside B) *)
Definition g : node := {|
  node_h := Some "hG"; node_p := Some "hA"; node_t := Some 0;
  node_k := None; node_a := None |}.

Definition nodes : list entry := [Dict root; Dict A; Dict B; Dict f].

Definition by_h : gmap (option string) node := index_nodes nodes.

(** every node name decrypted *)
Definition names : gmap string string :=
  <["hF" := "f.txt"]> (<["hB" := "B"]> (<["hA" := "A"]> (<["hRoot" := "root"]> ∅))).

(** the same listing when the root's name is not resolvable *)
Definition names_unnamed_root : gmap string string :=
  <["hF" := "f.txt"]> (<["hB" := "B"]> (<["hA" := "A"]> ∅)).

Definition body_plain : bytes :=
  [104; 101; 108; 108; 111; 44; 32; 109; 101; 103; 97; 33; 32; 116; 104; 105;
   115; 32; 105; 115; 32; 116; 104; 101; 32; 102; 105; 108; 101; 32; 98; 111;
   100; 121; 46].
Definition body_cipher : bytes :=
  [44; 33; 40; 40; 43; 104; 100; 41; 33; 35; 37; 101; 100; 48; 44; 45; 55;
   100; 45; 55; 100; 48; 44; 33; 100; 34; 45; 40; 33; 100; 38; 42; 32; 61; 106].

Definition server : Toy.script := {|
  Toy.on_file := λ _, Raise (NetworkError "offline");
  Toy.on_folder := λ _, Ok (Some nodes);
  Toy.on_node := λ _ h,
    Ok {| reply_g := Some ("http://media/" +:+ h); reply_s := Some 35;
          reply_at := None |};
  Toy.on_get := λ _, HttpStream [take 10 body_cipher; []; drop 10 body_cipher] BodyEof;
  Toy.on_mkdir := Toy.any_dir;
  Toy.on_open := Toy.any_file;
|}.

(** a directory stands where f.txt is to be written *)
Definition blocked_server : Toy.script := {|
  Toy.on_file := Toy.on_file server;
  Toy.on_folder := Toy.on_folder server;
  Toy.on_node := Toy.on_node server;
  Toy.on_get := Toy.on_get server;
  Toy.on_mkdir := Toy.any_dir;
  Toy.on_open := λ _, Raise (OSError "IsADirectoryError");
|}.

End Tree.


(** ** A single-file link *)

Module Single.

(** node id [abcdefgh], 32-byte key 00 01 .. 1f *)
Definition link : string :=
  "https://mega.nz/file/abcdefgh#AAECAwQFBgcICQoLDA0ODxAREhMUFRYXGBkaGxwdHh8".

(** [Tree.body_plain] under the link's key and IV *)
Definition body_cipher : bytes :=
  [104; 100; 110; 111; 107; 41; 38; 106; 117; 119; 113; 49; 48; 100; 120;
   121; 115; 33; 107; 112; 36; 113; 110; 98; 48; 118; 121; 124; 117; 48;
   114; 126; 100; 120; 44].

Definition reply (at_ : string) : api_reply :=
  {| reply_g := Some "http://media/file"; reply_s := Some 35;
     reply_at := Some at_ |}.

(** attributes name the file doc.bin *)
Definition server : Toy.script := {|
  Toy.on_file := λ _, Ok (reply "XVVXUWsyfjIqMnR_cz5yeSNnOkF7Im4iOiJkb2MuYmk");
  Toy.on_folder := λ _, Raise (NetworkError "offline");
  Toy.on_node := λ _ _, Raise (NetworkError "offline");
  Toy.on_get := λ _,
    HttpStream [take 10 body_cipher; take 10 (drop 10 body_cipher);
                drop 20 body_cipher] BodyEof;
  Toy.on_mkdir := Toy.any_dir;
  Toy.on_open := Toy.any_file;
|}.

(** the body breaks after two chunks *)
Definition broken_server : Toy.script := {|
  Toy.on_file := Toy.on_file server;
  Toy.on_folder := Toy.on_folder server;
  Toy.on_node := Toy.on_node server;
  Toy.on_get := λ _,
    HttpStream [take 10 body_cipher; take 10 (drop 10 body_cipher)]
               (BodyError "connection reset");
  Toy.on_mkdir := Toy.any_dir;
  Toy.on_open := Toy.any_file;
|}.

(** a directory stands where doc.bin is to be written *)
Definition blocked_server : Toy.script := {|
  Toy.on_file := Toy.on_file server;
  Toy.on_folder := Toy.on_folder server;
  Toy.on_node := Toy.on_node server;
  Toy.on_get := Toy.on_get server;
  Toy.on_mkdir := Toy.any_dir;
  Toy.on_open := λ _, Raise (OSError "IsADirectoryError");
|}.

(** the attribute blob decrypts to bytes without the marker *)
Definition nameless_server : Toy.script := {|
  Toy.on_file := λ _, Ok (reply "AAAAAAAAAAAAAAAAAAAAAA");
  Toy.on_folder := Toy.on_folder server;
  Toy.on_node := Toy.on_node server;
  Toy.on_get := Toy.on_get server;
  Toy.on_mkdir := Toy.any_dir;
  Toy.on_open := Toy.any_file;
|}.

(** a listing entry whose key decrypts but whose attribute blob does not
    carry the marker *)
Definition nameless_node : node := {|
  node_h := Some "hX"; node_p := Some "hB"; node_t := Some 0;
  node_k := Some "hA:IyAhJickJSorKCkuLywtMg";
  node_a := Some "AAAAAAAAAAAAAAAAAAAAAA" |}.

End Single.

(** ** Specification vocabulary *)

(** a 32-bit unsigned word *)
Definition word32 (w : Z) : Prop := 0 ≤ w < 2 ^ 32.

(** the four bytes of a word, most significant first *)
Definition word_bytes (w : Z) : bytes :=
  [Z.land (Z.shiftr w 24) 255; Z.land (Z.shiftr w 16) 255;
   Z.land (Z.shiftr w 8) 255; Z.land w 255].

(** [p] is the parent of [h] in the listing (both handles are strings) *)
Definition edge (nodes : list entry) (p h : string) : Prop :=
  ∃ n, Dict n ∈ nodes ∧ node_h n = Some h ∧ node_p n = Some p.

(** number of [done] events in a trace *)
Definition done_count (evs : list event) : nat :=
  length (filter (λ e, ev_stage e = "done") evs).

(** what a trace that starts in state [st] must satisfy: exactly one
    [done] event on return, none on an exception *)
Definition done_spec {W A} (st : io_state W) (p : io_state W * result A) : Prop :=
  ∃ evs,
    io_events p.1 = io_events st ++ evs
    ∧ match p.2 with
      | Ok _ => done_count evs = 1%nat
      | Raise _ => done_count evs = 0%nat
      end.

(** the handles whose parent is [p], in listing order *)
Definition child_of (p : string) (e : entry) : option string :=
  match e with
  | Dict n =>
    match node_h n, node_p n with
    | Some h, Some p' => if decide (p' = p) then Some h else None
    | _, _ => None
    end
  | NotDict => None
  end.

Definition child_list (nodes : list entry) (p : string) : list string :=
  omap (child_of p) nodes.

(** entries whose parent has not been expanded yet *)
Definition unexpanded (allowed : gset string) (e : entry) : option string :=
  match e with
  | Dict n =>
    match node_h n, node_p n with
    | Some h, Some p => if decide (p ∈ allowed) then None else Some h
    | _, _ => None
    end
  | NotDict => None
  end.

Definition pending (nodes : list entry) (allowed : gset string) : nat :=
  length (omap (unexpanded allowed) nodes).

(** ** Vocabulary for the byte and word helpers *)

(** [b] followed by the zero bytes that complete its last word *)
Definition pad4 (b : bytes) : bytes :=
  b ++ repeat 0 ((4 - length b mod 4) mod 4)%nat.

(** ** Vocabulary for link keys *)

(** a character the link patterns accept in a key: [a-zA-Z0-9_-] *)
Definition is_urlsafe_char (c : ascii) : bool :=
  let n := nat_of_ascii c in
  ((65 <=? n) && (n <=? 90) || (97 <=? n) && (n <=? 122)
   || (48 <=? n) && (n <=? 57) || (n =? 45) || (n =? 95))%nat.

Definition urlsafe (s : string) : bool :=
  forallb is_urlsafe_char (list_ascii_of_string s).

(** a character that carries six bits for the decoder *)
Definition b64_data (c : ascii) : Prop :=
  is_Some (Base64.value c) ∧ Base64.is_pad c = false ∧ Base64.is_ascii c = true.

(** ** Vocabulary for transfers *)



(** an event of one file's transfer (the final summary carries a message) *)
Definition per_file (ev : event) : Prop := ev_message ev = None.

(** ** Progress line helpers

    The text helpers nested in [_format_progress_line] and their twins in
    [ConsoleProgress].  A text is the list of its code points; widths are
    Python integers.  The columns that print floats are not modelled. *)

Module ProgressLine.

Abbreviation text := (list Z).

Definition len (s : text) : Z := Z.of_nat (length s).

(** [" " * k]: empty when [k <= 0] *)
Definition spaces (k : Z) : text := repeat 32 (Z.to_nat k).

(** [s.ljust(w)] *)
Definition ljust (s : text) (w : Z) : text := s ++ spaces (w - len s).

(** [s[i:]] *)
Definition slice_from (s : text) (i : Z) : text :=
  if i <? 0 then drop (Z.to_nat (Z.max 0 (len s + i))) s
  else drop (Z.to_nat i) s.

(** the three code points of the literal in the source *)
Definition ell : text := [226; 8364; 166].

Definition pad (s : text) (w : Z) : text := s ++ spaces (Z.max 0 (w - len s)).

Definition fit (s : text) (w : Z) : text :=
  match s with
  | [] => ljust [] w
  | _ =>
    if len s <=? w then ljust s w
    else
      let keep := w - len ell in
      if 0 <? keep then ell ++ slice_from s (- keep) else slice_from s (- w)
  end.

(** decimal digits of a non-negative integer *)
Fixpoint dec_digits (fuel : nat) (n : Z) : text :=
  match fuel with
  | O => []
  | S fuel' =>
    if n <? 10 then [48 + n]
    else dec_digits fuel' (n / 10) ++ [48 + n mod 10]
  end.

(** [f"{n:02d}"] for [n >= 0] *)
Definition d02 (n : Z) : text :=
  if n <? 10 then [48; 48 + n] else dec_digits (S (Z.to_nat n)) n.

(** the ETA column before padding: [f"ETA {h:02d}:{m:02d}:{s:02d}"] *)
Definition eta_text (eta : Z) : text :=
  let s := Z.max 0 eta in
  let h := s / 3600 in
  let s := s mod 3600 in
  let m := s / 60 in
  let s := s mod 60 in
  [69; 84; 65; 32] ++ d02 h ++ [58] ++ d02 m ++ [58] ++ d02 s.

End ProgressLine.

Module ConsoleProgress.
Import ProgressLine.

Definition _pad (s : text) (width : Z) : text :=
  if width <=? len s then s else s ++ spaces (width - len s).

Definition _fit (s : text) (width : Z) : text :=
  if len s <=? width then s ++ spaces (width - len s)
  else
    let keep := width - len ell in
    if keep <=? 0 then slice_from s (- width) else ell ++ slice_from s (- keep).

Definition _fmt_eta (sec : Z) : text := eta_text sec.

End ConsoleProgress.

(** * Properties *)

(** ** Sanity checks of the base64 and word helpers *)

Example b64_three_bytes : _mega_b64_decode "AAAA" = Ok [0; 0; 0].
Proof. reflexivity. Qed.

Example b64_marker : _mega_b64_decode "TUVHQQ" = Ok [77; 69; 71; 65].
Proof. reflexivity. Qed.

Example b64_url_alphabet : _mega_b64_decode "-_8" = Ok [251; 255].
Proof. reflexivity. Qed.

Example b64_one_char : _mega_b64_decode "A" = Raise BinasciiError.
Proof. reflexivity. Qed.

Example a32_pads : _bytes_to_a32 [1; 2; 3; 4; 5] = [16909060; 83886080].
Proof. reflexivity. Qed.

Lemma bind_Ok {A B} (f : A → result B) (a : A) : mbind f (Ok a) = f a.
Proof. reflexivity. Qed.

Lemma bind_Raise {A B} (f : A → result B) (e : exn) : mbind f (Raise e) = Raise e.
Proof. reflexivity. Qed.

(** ** Key derivation *)

Lemma to_bytes4_ok (w : Z) : word32 w → to_bytes4 w = Ok (word_bytes w).
Proof.
  intros [Hlo Hhi]. unfold to_bytes4.
  destruct (Z.leb_spec 0 w); [|lia].
  destruct (Z.ltb_spec w (2 ^ 32)); [|lia].
  reflexivity.
Qed.

Lemma a32_to_bytes_ok (a : list Z) :
  Forall word32 a → _a32_to_bytes a = Ok (concat (map word_bytes a)).
Proof.
  unfold _a32_to_bytes. induction 1 as [|w a Hw _ IH]; [reflexivity|].
  cbn [mapM_result]. rewrite (to_bytes4_ok w Hw). cbn.
  destruct (mapM_result to_bytes4 a) as [bs|e] eqn:E; cbn in *; [|discriminate].
  by inversion IH.
Qed.

Lemma length_words_bytes (a : list Z) :
  length (concat (map word_bytes a)) = (4 * length a)%nat.
Proof. induction a as [|w a IH]; cbn; [reflexivity|]. rewrite IH. lia. Qed.

Lemma word32_lxor (x y : Z) : word32 x → word32 y → word32 (Z.lxor x y).
Proof.
  intros [Hx0 Hx] [Hy0 Hy]. split.
  - by apply Z.lxor_nonneg.
  - destruct (decide (Z.lxor x y = 0)) as [->|Hne]; [done|].
    assert (0 ≤ Z.lxor x y) by (by apply Z.lxor_nonneg).
    apply Z.log2_lt_pow2; [lia|].
    pose proof (Z.log2_lxor x y Hx0 Hy0) as Hl.
    assert (Z.log2 x < 32).
    { destruct (decide (x = 0)) as [->|]; [done|]. apply Z.log2_lt_pow2; lia. }
    assert (Z.log2 y < 32).
    { destruct (decide (y = 0)) as [->|]; [done|]. apply Z.log2_lt_pow2; lia. }
    lia.
Qed.

Lemma Forall_word32_xor (a b : list Z) :
  Forall word32 a → Forall word32 b → Forall word32 (_xor_a32 a b).
Proof.
  unfold _xor_a32, xor_zip. intros Ha. revert b.
  induction Ha as [|x a Hx _ IH]; intros b Hb; [constructor|].
  destruct Hb as [|y b Hy Hb]; cbn; constructor; auto using word32_lxor.
Qed.

(** Every array that is too short for either rule leaves [key] unassigned. *)
Lemma derive_short_unbound (k : list Z) :
  Forall word32 k → length k ≠ 4%nat → (length k < 8)%nat →
  _derive_key_iv_from_k k = Raise (UnboundLocalError "key").
Proof.
  intros Hk H4 H8. unfold _derive_key_iv_from_k.
  destruct (Nat.eqb_spec (length k) 4); [done|].
  destruct (Nat.leb_spec 8 (length k)); [lia|].
  cbn. rewrite a32_to_bytes_ok; [reflexivity|].
  by apply Forall_take, Forall_drop.
Qed.

(** C1: on a five-word array (a 27-character link key decodes to one) the
    key derivation does not raise the validation error: it fails on the
    read of the unassigned local [key], and the [raise ValidationError]
    after the [return] is never executed. *)
Theorem derive_key_five_words_not_validation :
  _bytes_to_a32 <$> _mega_b64_decode "AAAAAAAAAAAAAAAAAAAAAAAAAAA" = Ok [0; 0; 0; 0; 0]
  ∧ _derive_key_iv_from_k [0; 0; 0; 0; 0] = Raise (UnboundLocalError "key")
  ∧ ∀ msg, _derive_key_iv_from_k [0; 0; 0; 0; 0] ≠ Raise (ValidationError msg).
Proof. split; [reflexivity|]. split; [reflexivity|]. intros msg. discriminate. Qed.

(** C7: a four-word array yields its own 16 bytes as the key and eight zero
    bytes as the IV; an array of eight or more words yields the bytes of
    words 0-3 XOR words 4-7 as the key and the bytes of words 4-5 as the IV. *)
Theorem derive_key_iv_rules (k : list Z) :
  Forall word32 k →
  (length k = 4%nat →
     _derive_key_iv_from_k k = Ok (concat (map word_bytes k), repeat 0 8)
     ∧ length (concat (map word_bytes k)) = 16%nat)
  ∧ ((8 ≤ length k)%nat →
     let key := concat (map word_bytes (zip_with Z.lxor (take 4 k) (take 4 (drop 4 k)))) in
     let iv := concat (map word_bytes (take 2 (drop 4 k))) in
     _derive_key_iv_from_k k = Ok (key, iv)
     ∧ length key = 16%nat ∧ length iv = 8%nat).
Proof.
  intros Hk. split.
  - intros H4. unfold _derive_key_iv_from_k. rewrite H4. cbn.
    rewrite (a32_to_bytes_ok k Hk). cbn. split; [reflexivity|].
    rewrite length_words_bytes. lia.
  - intros H8 key iv. unfold _derive_key_iv_from_k.
    destruct (Nat.eqb_spec (length k) 4); [lia|].
    destruct (Nat.leb_spec 8 (length k)); [|lia].
    assert (Hx : Forall word32 (_xor_a32 (take 4 k) (take 4 (drop 4 k)))).
    { apply Forall_word32_xor; repeat (apply Forall_take || apply Forall_drop); done. }
    rewrite (a32_to_bytes_ok _ Hx). cbn.
    rewrite a32_to_bytes_ok by (by apply Forall_take, Forall_drop). cbn.
    split; [reflexivity|]. subst key iv.
    rewrite !length_words_bytes, length_zip_with, !length_take, length_drop. lia.
Qed.

Lemma derive_key_iv_rules_witness :
  _derive_key_iv_from_k [1; 2; 3; 4] = Ok (concat (map word_bytes [1; 2; 3; 4]), repeat 0 8)
  ∧ _derive_key_iv_from_k [1; 2; 3; 4; 5; 6; 7; 8]
    = Ok ([0; 0; 0; 4; 0; 0; 0; 4; 0; 0; 0; 4; 0; 0; 0; 12],
          [0; 0; 0; 5; 0; 0; 0; 6]).
Proof.
  split.
  - refine (proj1 (proj1 (derive_key_iv_rules [1; 2; 3; 4] _) _)); [|reflexivity].
    repeat constructor; unfold word32; lia.
  - refine (proj1 (proj2 (derive_key_iv_rules [1; 2; 3; 4; 5; 6; 7; 8] _) _)); [|simpl; lia].
    repeat constructor; unfold word32; lia.
Defined.

(** ** Attribute decryption *)

Section AttrFacts.
Context `{ExternalLib}.

(** no marker after decryption: the empty mapping *)
Lemma decrypt_attrs_no_marker (attr_b64 : string) (key data dec : bytes) :
  _mega_b64_decode attr_b64 = Ok data →
  aes_cbc_decrypt key (repeat 0 16) data = Ok dec →
  startswith dec MEGA_marker = false →
  _decrypt_attrs attr_b64 key = Ok (JObj []).
Proof.
  intros Hd Hc Hm. unfold _decrypt_attrs.
  by rewrite Hd, bind_Ok, Hc, bind_Ok, Hm.
Qed.

(** marker present but the remainder does not parse: the empty mapping *)
Lemma decrypt_attrs_bad_json (attr_b64 : string) (key data dec : bytes) :
  _mega_b64_decode attr_b64 = Ok data →
  aes_cbc_decrypt key (repeat 0 16) data = Ok dec →
  startswith dec MEGA_marker = true →
  json_loads_utf8 (rstrip0 (drop 4 dec)) = None →
  _decrypt_attrs attr_b64 key = Ok (JObj []).
Proof.
  intros Hd Hc Hm Hj. unfold _decrypt_attrs.
  by rewrite Hd, bind_Ok, Hc, bind_Ok, Hm, Hj.
Qed.

(** a blob of whole blocks under a 16-byte key never raises *)
Lemma decrypt_attrs_whole_blocks (attr_b64 : string) (key data : bytes) :
  length key = 16%nat →
  _mega_b64_decode attr_b64 = Ok data →
  (length data mod 16 = 0)%nat →
  ∃ attrs, _decrypt_attrs attr_b64 key = Ok attrs.
Proof.
  intros Hk Hd Hl. unfold _decrypt_attrs, aes_cbc_decrypt, aes_key_ok.
  rewrite Hd, bind_Ok, Hk, Hl. cbn [negb Nat.eqb length repeat].
  rewrite bool_decide_true by (by apply list_elem_of_here). cbn [negb]. rewrite bind_Ok.
  destruct (startswith _ _); cbn [negb]; eauto.
Qed.

(** C5: attribute decryption does raise.  The base64 decoding and the CBC
    decryption run before the [try]: a blob that decodes to three bytes
    raises ValueError (data not a multiple of the block size), and a
    one-character blob raises binascii.Error. *)
Theorem decrypt_attrs_raises_on_ragged_blob :
  _decrypt_attrs "AAAA" (repeat 0 16) = Raise ValueError
  ∧ _decrypt_attrs "A" (repeat 0 16) = Raise BinasciiError.
Proof. split; reflexivity. Qed.

End AttrFacts.

(** ** File-system calls *)

Section EnvFacts.
Context `{ExternalLib} {W : Type} `{World W}.

Lemma mkdir_parents_run (p : Path) (st : io_state W) :
  mkdir_parents p st
  = ({| io_world := (fs_mkdir (io_world st) p).1; io_events := io_events st;
        io_files := io_files st |}, (fs_mkdir (io_world st) p).2).
Proof.
  unfold mkdir_parents, call, io_bind, with_world, io_lift.
  by destruct (fs_mkdir (io_world st) p) as [w r].
Qed.

Lemma open_wb_run (path : Path) (st : io_state W) :
  open_wb path st
  = match (fs_open (io_world st) path).2 with
    | Ok _ => ({| io_world := (fs_open (io_world st) path).1;
                  io_events := io_events st;
                  io_files := <[path := []]> (io_files st) |}, Ok ())
    | Raise e => ({| io_world := (fs_open (io_world st) path).1;
                     io_events := io_events st;
                     io_files := io_files st |}, Raise e)
    end.
Proof.
  unfold open_wb, call, io_bind, with_world, io_lift, file_open.
  by destruct (fs_open (io_world st) path) as [w [[]|e]].
Qed.

End EnvFacts.

(** ** Counter-mode streaming *)

Section CtrFacts.
Context `{ExternalLib} {W : Type} `{World W}.





End CtrFacts.

Section CtrRun.
Import Toy.


End CtrRun.

(** ** Progress events of a single-file transfer *)

Lemma done_count_app (a b : list event) :
  done_count (a ++ b) = (done_count a + done_count b)%nat.
Proof. unfold done_count. by rewrite filter_app, length_app. Qed.

Lemma done_count_progress (stage name : string) (size d : Z) (idx : option Z) :
  done_count [progress_event stage name size d idx]
  = if decide (stage = "done") then 1%nat else 0%nat.
Proof.
  unfold done_count. rewrite filter_cons, filter_nil. cbn [progress_event ev_stage].
  by destruct (decide (stage = "done")).
Qed.

Section EventFacts.
Context `{ExternalLib} {W : Type} `{World W}.

(** the chunk loop appends [downloading] events only *)
Lemma stream_chunks_no_done (path : Path) (name : string) (size : Z)
    (idx : option Z) (chunks : list bytes) :
  ∀ (c : ctr_cipher) (d : Z) (st : io_state W),
    ∃ evs, io_events (stream_chunks path name size idx chunks c d st).1
           = io_events st ++ evs
      ∧ done_count evs = 0%nat.
Proof.
  induction chunks as [|chunk rest IH]; intros c d st; cbn [stream_chunks].
  - exists []. by rewrite app_nil_r.
  - destruct (bytes_truthy chunk); [|apply IH].
    unfold io_bind at 1, io_lift.
    destruct (ctr_decrypt c chunk) as [[dec c']|e].
    + unfold io_bind at 1, file_write at 1. unfold io_bind at 1, _emit at 1.
      cbn [io_world io_events io_files].
      match goal with |- context [stream_chunks _ _ _ _ rest ?c1 ?d1 ?st1] =>
        destruct (IH c1 d1 st1) as (evs & Hev & Hn)
      end.
      cbn [io_events] in Hev.
      eexists (_ :: evs). rewrite Hev, <- app_assoc. split; [reflexivity|].
      change (?x :: evs) with ([x] ++ evs).
      rewrite done_count_app, done_count_progress, Hn. by case_decide.
    + exists []. by rewrite app_nil_r.
Qed.

Lemma fetch_body_no_done (g_url : string) (path : Path) (name : string)
    (size : Z) (idx : option Z) (c : ctr_cipher) (st : io_state W) :
  ∃ evs, io_events (fetch_body g_url path name size idx c st).1 = io_events st ++ evs
    ∧ done_count evs = 0%nat.
Proof.
  unfold fetch_body, io_bind at 1, with_world.
  destruct (http_get (io_world st) g_url) as [w [msg|chunks ending]].
  - exists []. by rewrite app_nil_r.
  - unfold io_bind at 1. rewrite open_wb_run. cbn [io_world io_events io_files].
    destruct (fs_open w path) as [w' [[]|e]]; cbn [fst snd].
    2:{ exists []. by rewrite app_nil_r. }
    unfold io_bind at 1.
    match goal with |- context [stream_chunks _ _ _ _ chunks c 0 ?st1] =>
      destruct (stream_chunks_no_done path name size idx chunks c 0 st1)
        as (evs & Hev & Hn);
      destruct (stream_chunks path name size idx chunks c 0 st1) as [st2 [d|e]]
    end; cbn [fst io_events] in Hev.
    + exists evs. split; [|done]. by destruct ending.
    + by exists evs.
Qed.

(** C8: the events emitted by a single-file download contain exactly one
    [done] event when the download returns, and none when it raises (a
    network error or any other exception, at any point). *)
Theorem download_file_done_once (file_url : string) (dest_dir : option string)
    (st : io_state W) :
  ∃ evs,
    io_events (download_file file_url dest_dir st).1 = io_events st ++ evs
    ∧ match (download_file file_url dest_dir st).2 with
      | Ok _ => done_count evs = 1%nat
      | Raise _ => done_count evs = 0%nat
      end.
Proof.
  change (done_spec st (download_file file_url dest_dir st)).
  assert (Hnil : ∀ e w, done_spec st
            ({| io_world := w; io_events := io_events st; io_files := io_files st |},
             @Raise Path e)).
  { intros e w. exists []. cbn. by rewrite app_nil_r. }
  unfold download_file.
  destruct (negb (str_contains "mega.nz" file_url)).
  { destruct st. apply Hnil. }
  cbv beta iota zeta delta [io_bind io_lift io_raise io_ret call with_world _emit].
  destruct (_parse_file_link file_url) as [[file_id k_a32]|e];
    [|destruct st; apply Hnil].
  destruct (_derive_key_iv_from_k k_a32) as [[key_bytes iv8]|e];
    [|destruct st; apply Hnil].
  destruct (api_file (io_world st) file_id) as [w [resp|e]]; [|apply Hnil].
  cbn [io_world io_events io_files].
  destruct (reply_g resp) as [g_url|]; [|apply Hnil].
  destruct (reply_s resp) as [size|]; [|apply Hnil].
  destruct (file_name resp key_bytes) as [name|e]; [|apply Hnil].
  rewrite mkdir_parents_run. cbn [io_world io_events io_files].
  destruct (fs_mkdir w (out_dir_of dest_dir)) as [w' [[]|e]]; cbn [fst snd];
    [|apply Hnil].
  destruct (AES_new_CTR key_bytes iv8) as [cipher|e].
  2:{ eexists [_]. split; [reflexivity|]. cbn [snd].
      rewrite done_count_progress. by case_decide. }
  match goal with |- context [fetch_body ?u ?p ?n ?s ?i ?c ?st1] =>
    destruct (fetch_body_no_done u p n s i c st1) as (evs & Hev & Hn);
    destruct (fetch_body u p n s i c st1) as [st2 [[]|e]]
  end; cbn [fst io_events] in Hev.
  - eexists (_ :: evs ++ [_]). cbn [fst snd io_events].
    rewrite Hev, <- !app_assoc. split; [reflexivity|].
    change (?x :: evs ++ ?y) with ([x] ++ evs ++ y).
    rewrite !done_count_app, !done_count_progress, Hn.
    repeat case_decide; done.
  - eexists (_ :: evs). cbn [fst snd]. rewrite Hev, <- app_assoc.
    split; [reflexivity|].
    change (?x :: evs) with ([x] ++ evs).
    rewrite done_count_app, done_count_progress, Hn. by case_decide.
Qed.

End EventFacts.

(** ** Descendants of the target subfolder *)

Lemma children_fold_lookup (nodes : list entry) (p : string) :
  ∀ m : gmap string (list string),
    default [] (fold_left children_step nodes m !! p)
    = default [] (m !! p) ++ child_list nodes p.
Proof.
  unfold child_list.
  induction nodes as [|e nodes IH]; intros m; cbn [fold_left omap list_omap].
  - by rewrite app_nil_r.
  - rewrite IH. destruct e as [|n]; cbn [children_step child_of]; [done|].
    destruct (node_h n) as [h|]; [|done].
    destruct (node_p n) as [p'|]; [|done].
    destruct (decide (p' = p)) as [->|Hne].
    + rewrite lookup_insert_eq. cbn. by rewrite <- app_assoc.
    + by rewrite lookup_insert_ne.
Qed.

Lemma children_map_lookup (nodes : list entry) (p : string) :
  default [] (children_map nodes !! p) = child_list nodes p.
Proof. unfold children_map. by rewrite children_fold_lookup, lookup_empty. Qed.

Lemma elem_of_child_list (nodes : list entry) (p h : string) :
  h ∈ child_list nodes p ↔ edge nodes p h.
Proof.
  unfold child_list, edge. rewrite list_elem_of_omap. split.
  - intros (e & He & Hc). destruct e as [|n]; [done|]. cbn in Hc.
    destruct (node_h n) as [h'|] eqn:Hh; [|done].
    destruct (node_p n) as [p'|] eqn:Hp; [|done].
    case_decide; [|done]. simplify_eq. eauto.
  - intros (n & Hn & Hh & Hp). exists (Dict n). split; [done|].
    cbn. rewrite Hh, Hp. by rewrite decide_True.
Qed.

Lemma pending_le (nodes : list entry) (allowed : gset string) :
  (pending nodes allowed ≤ length nodes)%nat.
Proof.
  unfold pending. induction nodes as [|e nodes IH]; cbn; [lia|].
  destruct (unexpanded allowed e); cbn; lia.
Qed.

(** expanding [cur] moves its children from pending to the stack *)
Lemma pending_expand (nodes : list entry) (allowed : gset string) (cur : string) :
  cur ∉ allowed →
  pending nodes allowed
  = (length (child_list nodes cur) + pending nodes ({[cur]} ∪ allowed))%nat.
Proof.
  intros Hcur. unfold pending, child_list.
  induction nodes as [|e nodes IH]; cbn [omap list_omap]; [done|].
  destruct e as [|n]; cbn [unexpanded child_of]; [done|].
  destruct (node_h n) as [h|]; [|done].
  destruct (node_p n) as [p|]; [|done].
  destruct (decide (p = cur)) as [->|Hne].
  - rewrite decide_False by done.
    rewrite decide_True by (apply elem_of_union; left; by apply elem_of_singleton).
    cbn [length]. lia.
  - destruct (decide (p ∈ allowed)) as [Hin|Hout].
    + by rewrite decide_True by (apply elem_of_union; by right).
    + rewrite decide_False; [cbn [length]; lia|].
      intros [Hs|?]%elem_of_union; [|done].
      by apply elem_of_singleton in Hs.
Qed.

Lemma elem_of_rev {A} (x : A) (l : list A) : x ∈ rev l ↔ x ∈ l.
Proof. rewrite !list_elem_of_In. symmetry. apply in_rev. Qed.

Lemma walk_spec (nodes : list entry) (target : string) :
  ∀ (fuel : nat) (stack : list string) (allowed : gset string),
    (length stack + pending nodes allowed < fuel)%nat →
    (∀ x, x ∈ stack → rtc (edge nodes) target x) →
    (∀ x, x ∈ allowed → rtc (edge nodes) target x) →
    (target ∈ allowed ∨ target ∈ stack) →
    (∀ x y, x ∈ allowed → edge nodes x y → y ∈ allowed ∨ y ∈ stack) →
    ∃ res, walk fuel (children_map nodes) stack allowed = Ok res
      ∧ ∀ x, x ∈ res ↔ rtc (edge nodes) target x.
Proof.
  induction fuel as [|fuel IH]; intros stack allowed Hfuel Hst Hal Htg Hcl; [lia|].
  destruct stack as [|cur stack]; cbn [walk].
  - exists allowed. split; [done|]. intros x. split; [apply Hal|].
    revert x. apply rtc_ind_r.
    + destruct Htg as [?|Hin]; [done|]. by apply elem_of_nil in Hin.
    + intros y z _ Hyz IHr.
      destruct (Hcl y z IHr Hyz) as [?|Hin]; [done|]. by apply elem_of_nil in Hin.
  - case_bool_decide as Hcur.
    + apply IH.
      * cbn [length] in Hfuel. lia.
      * intros x Hx. apply Hst. by right.
      * done.
      * destruct Htg as [?|Hin]; [by left|].
        apply elem_of_cons in Hin as [->|?]; [by left|by right].
      * intros x y Hx Hxy. destruct (Hcl x y Hx Hxy) as [?|Hin]; [by left|].
        apply elem_of_cons in Hin as [->|?]; [by left|by right].
    + rewrite children_map_lookup. apply IH.
      * rewrite length_app, length_rev. cbn [length] in Hfuel.
        rewrite (pending_expand nodes allowed cur Hcur) in Hfuel. lia.
      * intros x Hx. apply elem_of_app in Hx as [Hx|Hx].
        -- rewrite elem_of_rev, elem_of_child_list in Hx.
           eapply rtc_r; [|exact Hx]. apply Hst. by left.
        -- apply Hst. by right.
      * intros x Hx. apply elem_of_union in Hx as [Hx|Hx]; [|by apply Hal].
        apply elem_of_singleton in Hx as ->. apply Hst. by left.
      * destruct Htg as [?|Hin]; [left; by apply elem_of_union_r|].
        apply elem_of_cons in Hin as [->|?];
          [left; by apply elem_of_union_l, elem_of_singleton|].
        right. apply elem_of_app. by right.
      * intros x y Hx Hxy. apply elem_of_union in Hx as [Hx|Hx].
        -- apply elem_of_singleton in Hx as ->. right.
           apply elem_of_app. left. by rewrite elem_of_rev, elem_of_child_list.
        -- destruct (Hcl x y Hx Hxy) as [?|Hin]; [left; by apply elem_of_union_r|].
           apply elem_of_cons in Hin as [->|?];
             [left; by apply elem_of_union_l, elem_of_singleton|].
           right. apply elem_of_app. by right.
Qed.

(** C10: for every listing, cyclic or not, the stack walk returns, and the
    set it returns holds exactly the handles reachable from the target
    along parent-to-child edges. *)
Theorem descendants_terminates_reachable (nodes : list entry) (target : string) :
  ∃ allowed,
    descendants nodes target = Ok allowed
    ∧ ∀ x, x ∈ allowed ↔ rtc (edge nodes) target x.
Proof.
  unfold descendants. apply walk_spec.
  - pose proof (pending_le nodes ∅). cbn [length]. lia.
  - intros x Hx. apply list_elem_of_singleton in Hx as ->. done.
  - intros x Hx. by apply not_elem_of_empty in Hx.
  - right. by apply list_elem_of_singleton.
  - intros x y Hx. by apply not_elem_of_empty in Hx.
Qed.

(** more fuel does not change the outcome of a walk that returns *)
Lemma walk_fuel_mono (children : gmap string (list string)) :
  ∀ (fuel fuel' : nat) (stack : list string) (allowed res : gset string),
    (fuel ≤ fuel')%nat →
    walk fuel children stack allowed = Ok res →
    walk fuel' children stack allowed = Ok res.
Proof.
  induction fuel as [|fuel IH]; intros fuel' stack allowed res Hle Hw; [done|].
  destruct fuel' as [|fuel']; [lia|]. cbn [walk] in *.
  destruct stack as [|cur stack]; [done|].
  case_bool_decide; (apply (IH fuel'); [lia|done]).
Qed.

(** a listing whose parent pointers form cycles *)
Example descendants_cyclic :
  let n h p := Dict {| node_h := Some h; node_p := Some p; node_t := Some 1;
                       node_k := None; node_a := None |} in
  descendants [n "x" "y"; n "y" "x"; n "z" "z"; n "w" "y"] "x"
  = Ok ({["x"; "y"; "w"]} : gset string).
Proof. vm_compute. reflexivity. Qed.

(** ** Folder listing: isolation of a node whose key does not decrypt *)

Section FolderFacts.
Context `{ExternalLib} {W : Type} `{World W}.



(** the three ways a key blob fails all end in [None] *)
Lemma node_key_bytes_failures (shared : bytes) (n : node) :
  node_k n = None
  ∨ (∃ k e, node_k n = Some k
       ∧ _mega_b64_decode (default "" (last (split_on ":" k))) = Raise e)
  ∨ (∃ k enc e, node_k n = Some k
       ∧ _mega_b64_decode (default "" (last (split_on ":" k))) = Ok enc
       ∧ aes_ecb_decrypt shared enc = Raise e) →
  node_key_bytes shared n = None.
Proof.
  unfold node_key_bytes.
  intros [->|[(k & e & -> & Hd)|(k & enc & e & -> & Hd & Hc)]]; [done| |].
  - by rewrite Hd.
  - by rewrite Hd, bind_Ok, Hc.
Qed.

Lemma eligible_node (allowed : option (gset string)) (n n' : node) (h : string) :
  eligible allowed (Dict n) = Some (h, n') → n' = n ∧ node_h n = Some h.
Proof.
  unfold eligible. destruct (negb _); [done|].
  destruct (node_h n) as [h0|]; [|done].
  destruct (match allowed with Some _ => _ | None => _ end); [done|].
  by intros [= -> ->].
Qed.

Lemma names_step_bad_key (shared : bytes) (n : node) (names : gmap string string) :
  kb_usable (node_key_bytes shared n) = false →
  names_step shared names (Dict n) = Ok names.
Proof.
  intros Hkb. unfold names_step. destruct (node_h n); [|done].
  destruct (node_key_bytes shared n) as [kb|]; [|done].
  destruct (node_a n); [|done]. by rewrite Hkb.
Qed.

Lemma file_step_bad_key (cx : folder_ctx) (n : node) (acc : list Path * Z)
    (st : io_state W) :
  kb_usable (node_key_bytes (cx_shared cx) n) = false →
  file_step cx acc (Dict n) st = (st, Ok acc).
Proof.
  intros Hkb. destruct acc as [results idx]. unfold file_step.
  destruct (eligible (cx_allowed cx) (Dict n)) as [[h n']|] eqn:He; [|done].
  apply eligible_node in He as [-> _].
  destruct (node_key_bytes (cx_shared cx) n) as [kb|]; [|done].
  by rewrite Hkb.
Qed.




End FolderFacts.

Section FolderRun.
Import Toy.

(** three files under B whose key blobs fail in the three ways (no key
  string, undecodable base64, ciphertext that is not whole blocks), next
  to the listing of the synthetic tree *)
Example bad_key_siblings_still_returned :
let bad h k := Dict {| node_h := Some h; node_p := Some "hB"; node_t := Some 0;
                       node_k := k; node_a := None |} in
let listing := bad "hX1" None :: bad "hX2" (Some "hX2:A")
               :: bad "hX3" (Some "hX3:AAAA") :: Tree.nodes in
let run := download_nodes Tree.shared_key "fid" None [] listing (start Tree.server) in
run.2 = Ok [["root"; "A"; "B"; "f.txt"]]
∧ io_files run.1 !! ["root"; "A"; "B"; "f.txt"] = Some Tree.body_plain.
Proof. vm_compute. split; reflexivity. Qed.

End FolderRun.

(** ** Name fallbacks *)

Section NameFacts.
Context `{ExternalLib}.

(** what one iteration of the name pass can do to the map *)
Lemma names_step_inv (shared : bytes) (m m' : gmap string string) (e : entry) :
  names_step shared m e = Ok m' →
  m' = m
  ∨ ∃ n h kb a attrs nm,
      e = Dict n ∧ node_h n = Some h ∧ node_key_bytes shared n = Some kb
      ∧ node_a n = Some a ∧ _decrypt_attrs a kb = Ok attrs
      ∧ attrs_name attrs = Some nm ∧ m' = <[h := nm]> m.
Proof.
  unfold names_step. destruct e as [|n]; [intros [= <-]; by left|].
  destruct (node_h n) as [h|] eqn:Hh; [|intros [= <-]; by left].
  destruct (node_key_bytes shared n) as [kb|] eqn:Hk; [|intros [= <-]; by left].
  destruct (node_a n) as [a|] eqn:Ha; [|intros [= <-]; by left].
  destruct (kb_usable (Some kb)); [|intros [= <-]; by left].
  destruct (_decrypt_attrs a kb) as [attrs|] eqn:Hd; [|done].
  rewrite bind_Ok. destruct (attrs_name attrs) as [nm|] eqn:Hn.
  - intros [= <-]. right. by exists n, h, kb, a, attrs, nm.
  - intros [= <-]. by left.
Qed.

Lemma decrypt_names_unnamed (shared : bytes) (nodes : list entry)
    (names : gmap string string) (h : string) :
  decrypt_names shared nodes = Ok names →
  (∀ n kb a, Dict n ∈ nodes → node_h n = Some h →
     node_key_bytes shared n = Some kb → node_a n = Some a →
     ∃ attrs, _decrypt_attrs a kb = Ok attrs ∧ attrs_name attrs = None) →
  names !! h = None.
Proof.
  unfold decrypt_names.
  assert (Hgen : ∀ m, m !! h = None →
            foldM_result (names_step shared) m nodes = Ok names →
            (∀ n kb a, Dict n ∈ nodes → node_h n = Some h →
               node_key_bytes shared n = Some kb → node_a n = Some a →
               ∃ attrs, _decrypt_attrs a kb = Ok attrs ∧ attrs_name attrs = None) →
            names !! h = None).
  { induction nodes as [|e nodes IH]; intros m Hm Hf Hun; cbn [foldM_result] in Hf.
    - by inversion Hf; subst.
    - destruct (names_step shared m e) as [m'|] eqn:Hs; [|done].
      rewrite bind_Ok in Hf. apply (IH m'); [|done|].
      + apply names_step_inv in Hs
          as [->|(n & h' & kb & a & attrs & nm & -> & Hh & Hk & Ha & Hd & Hn & ->)];
          [done|].
        destruct (decide (h' = h)) as [->|Hne]; [|by rewrite lookup_insert_ne].
        destruct (Hun n kb a) as (attrs' & Hd' & Hn'); [by left|done..|].
        congruence.
      + intros n kb a Hin. apply Hun. by right. }
  intros Hf Hun. by apply (Hgen ∅).
Qed.

(** C9 (as the code has it): a folder-listing entry whose handle gets no
    decrypted name (empty or nameless attributes) is named by its id, and
    the name pass goes on; a single-file download whose attributes are an
    empty mapping, or lack a truthy name, is named by the literal "file",
    not by the node id. *)
Theorem name_fallbacks :
  (∀ shared nodes names h,
     decrypt_names shared nodes = Ok names →
     (∀ n kb a, Dict n ∈ nodes → node_h n = Some h →
        node_key_bytes shared n = Some kb → node_a n = Some a →
        ∃ attrs, _decrypt_attrs a kb = Ok attrs ∧ attrs_name attrs = None) →
     node_name names h = h)
  ∧ (∀ shared names n kb a attrs,
       node_key_bytes shared n = Some kb → node_a n = Some a →
       _decrypt_attrs a kb = Ok attrs → attrs_name attrs = None →
       names_step shared names (Dict n) = Ok names)
  ∧ (∀ resp key at_ items,
       reply_at resp = Some at_ →
       _decrypt_attrs at_ key = Ok (JObj items) →
       truthy (default JNull (assoc_get "n" items)) = false →
       file_name resp key = Ok "file").
Proof.
  split; [|split].
  - intros shared nodes names h Hd Hun. unfold node_name.
    by rewrite (decrypt_names_unnamed shared nodes names h Hd Hun).
  - intros shared names n kb a attrs Hk Ha Hd Hn. unfold names_step.
    destruct (node_h n); [|done]. rewrite Hk, Ha.
    destruct (kb_usable (Some kb)); [|done]. by rewrite Hd, bind_Ok, Hn.
  - intros resp key at_ items Hat Hd Hn. unfold file_name, name_from_attrs.
    rewrite Hat, Hd, bind_Ok. cbn [json_get]. by rewrite bind_Ok, Hn.
Qed.

End NameFacts.

Section NameRun.
Import Toy.

Lemma name_fallbacks_witness :
  node_name ∅ "hX" = "hX"
  ∧ names_step Tree.shared_key ∅ (Dict Single.nameless_node) = Ok ∅
  ∧ file_name (Single.reply "AAAAAAAAAAAAAAAAAAAAAA") (repeat 16 16) = Ok "file".
Proof.
  split; [|split].
  - apply (proj1 name_fallbacks Tree.shared_key [Dict Single.nameless_node] ∅ "hX").
    + vm_compute. reflexivity.
    + intros n kb a Hin _ Hk Ha.
      apply list_elem_of_singleton in Hin. injection Hin as ->.
      vm_compute in Hk, Ha. injection Hk as <-. injection Ha as <-.
      exists (JObj []). split; vm_compute; reflexivity.
  - apply (proj1 (proj2 name_fallbacks) Tree.shared_key ∅ Single.nameless_node
             (repeat 34 16) "AAAAAAAAAAAAAAAAAAAAAA" (JObj []));
      vm_compute; reflexivity.
  - refine (proj2 (proj2 name_fallbacks) _ (repeat 16 16)
              "AAAAAAAAAAAAAAAAAAAAAA" [] _ _ _); reflexivity.
Defined.

(** C9 fails for single files: node id [abcdefgh], attributes decrypt to the
  empty mapping, and the download is named [file]. *)
Lemma single_file_fallback_is_not_node_id :
let run := download_file Single.link None (start Single.nameless_server) in
fst <$> _parse_file_link Single.link = Ok "abcdefgh"
∧ _decrypt_attrs "AAAAAAAAAAAAAAAAAAAAAA" (repeat 16 16) = Ok (JObj [])
∧ run.2 = Ok ["file"]
∧ run.2 ≠ Ok ["abcdefgh"]
∧ (ev_filename <$> io_events run.1) = repeat (Some "file") 5.
Proof. vm_compute. repeat split; done. Qed.

End NameRun.

(** ** The parent-chain walk *)

(** more fuel does not change the outcome of a walk that returns *)
Lemma full_path_walk_fuel_mono (by_h : gmap (option string) node)
    (names : gmap string string) (target : option string) :
  ∀ (fuel fuel' : nat) (cur : option node) (parts res : list string),
    (fuel ≤ fuel')%nat →
    full_path_walk fuel by_h names target cur parts = Ok res →
    full_path_walk fuel' by_h names target cur parts = Ok res.
Proof.
  induction fuel as [|fuel IH]; intros fuel' cur parts res Hle Hw; [done|].
  destruct fuel' as [|fuel']; [lia|]. cbn [full_path_walk] in *.
  destruct cur as [c|]; [|done].
  destruct (node_truthy c && _); [|done].
  destruct (by_h !! node_p c) as [c'|]; [|done].
  destruct (node_truthy c' && _).
  - destruct (match target with Some _ => _ | None => _ end); [done|].
    apply (IH fuel'); [lia|done].
  - apply (IH fuel'); [lia|done].
Qed.

(** a node that is its own parent keeps the walk going for ever *)
Example full_path_self_parent :
  let n := {| node_h := Some "hS"; node_p := Some "hS"; node_t := Some 0;
              node_k := None; node_a := None |} in
  ∀ fuel, full_path_walk fuel (index_nodes [Dict n]) ∅ None (Some n) []
          = Raise NonTermination.
Proof.
  intros n fuel. induction fuel as [|fuel IH]; [reflexivity|].
  cbn [full_path_walk]. exact IH.
Qed.

(** ** The synthetic tree *)

(** C3 (as the code has it): without a target subfolder the walk collects
    every named ancestor folder, the root included: the file resolves to
    root/A/B/f.txt, and to A/B/f.txt only when the root has no resolvable
    name. *)
Theorem tree_path_from_root :
  full_path Tree.by_h Tree.names None "hF" = Ok ["root"; "A"; "B"]
  ∧ resolve_rel Tree.by_h Tree.names None "hF" = Ok ["root"; "A"; "B"; "f.txt"]
  ∧ resolve_rel Tree.by_h Tree.names_unnamed_root None "hF" = Ok ["A"; "B"; "f.txt"].
Proof. vm_compute. repeat split; reflexivity. Qed.

(** C3 fails as stated: with every name decrypted the path is not A/B/f.txt. *)
Lemma tree_path_is_not_A_B_f :
  resolve_rel Tree.by_h Tree.names None "hF" ≠ Ok ["A"; "B"; "f.txt"].
Proof. vm_compute. discriminate. Qed.

(** eligibility under scoping is reachability from the target *)
Lemma eligible_scoped (nodes : list entry) (by_h : gmap (option string) node)
    (target : string) (allowed : gset string) (n : node) (h : string) :
  allowed_set nodes by_h (Some target) = Ok (Some allowed) →
  eligible (Some allowed) (Dict n) = Some (h, n)
  ↔ node_t n = Some 0 ∧ node_h n = Some h ∧ rtc (edge nodes) target h.
Proof.
  unfold allowed_set. destruct (target_active by_h (Some target)); [|done].
  unfold descendants.
  destruct (walk_spec nodes target (length nodes + 2) [target] ∅) as (res & Hw & Hres).
  { pose proof (pending_le nodes ∅). cbn [length]. lia. }
  { intros x Hx. apply list_elem_of_singleton in Hx as ->. done. }
  { intros x Hx. by apply not_elem_of_empty in Hx. }
  { right. by apply list_elem_of_singleton. }
  { intros x y Hx. by apply not_elem_of_empty in Hx. }
  rewrite Hw. intros [= <-]. unfold eligible.
  case_bool_decide as Ht; cbn [negb].
  - destruct (node_h n) as [h'|].
    + case_bool_decide as Hin; cbn [negb].
      * split.
        -- intros [= ->]. by rewrite <- Hres.
        -- by intros (_ & [= ->] & _).
      * split; [done|]. intros (_ & [= ->] & Hr). by apply Hres in Hr.
    + split; [done|]. by intros (_ & ? & _).
  - split; [done|]. by intros (? & _).
Qed.

(** C4 (as the code has it): with target subfolder B the allowed set is B
    and its descendants, the only eligible file is f.txt, and its path
    starts at B's own name: B/f.txt. *)
Theorem tree_scoped_to_B :
  allowed_set Tree.nodes Tree.by_h (Some "hB") = Ok (Some {["hB"; "hF"]})
  ∧ omap (eligible (Some {["hB"; "hF"]})) (Tree.nodes ++ [Dict Tree.g])
    = [("hF", Tree.f)]
  ∧ omap (eligible None) (Tree.nodes ++ [Dict Tree.g])
    = [("hF", Tree.f); ("hG", Tree.g)]
  ∧ resolve_rel Tree.by_h Tree.names (Some "hB") "hF" = Ok ["B"; "f.txt"].
Proof. vm_compute. repeat split; reflexivity. Qed.

(** C4 fails as stated: the scoped path is not the bare f.txt. *)
Lemma tree_scoped_path_is_not_bare :
  resolve_rel Tree.by_h Tree.names (Some "hB") "hF" ≠ Ok ["f.txt"].
Proof. vm_compute. discriminate. Qed.

Section TreeRun.
Import Toy.

(** the names used above are the ones the listing decrypts to *)
Example tree_names_decrypt :
decrypt_names Tree.shared_key Tree.nodes = Ok Tree.names.
Proof. vm_compute. reflexivity. Qed.

Example tree_download_unscoped :
let run := download_nodes Tree.shared_key "fid" None [] Tree.nodes (start Tree.server) in
run.2 = Ok [["root"; "A"; "B"; "f.txt"]]
∧ map_to_list (io_files run.1) = [(["root"; "A"; "B"; "f.txt"], Tree.body_plain)].
Proof. vm_compute. split; reflexivity. Qed.

Example tree_download_scoped :
let run := download_nodes Tree.shared_key "fid" (Some "hB") [] Tree.nodes
             (start Tree.server) in
run.2 = Ok [["B"; "f.txt"]]
∧ map_to_list (io_files run.1) = [(["B"; "f.txt"], Tree.body_plain)]
∧ (ev_stage <$> io_events run.1)
  = ["starting"; "downloading"; "downloading"; "done"; "done"].
Proof. vm_compute. repeat split; reflexivity. Qed.

(** a single-file transfer that completes: one [done] event *)
Example single_file_completes :
let run := download_file Single.link None (start Single.server) in
run.2 = Ok ["doc.bin"]
∧ io_files run.1 !! ["doc.bin"] = Some Tree.body_plain
∧ (ev_stage <$> io_events run.1)
  = ["starting"; "downloading"; "downloading"; "downloading"; "done"].
Proof. vm_compute. repeat split; reflexivity. Qed.

(** the same transfer cut by the network after two chunks: a network
  error, no [done] event, the partial file stays *)
Example single_file_breaks :
let run := download_file Single.link None (start Single.broken_server) in
run.2 = Raise (NetworkError "connection reset")
∧ io_files run.1 !! ["doc.bin"] = Some (take 20 Tree.body_plain)
∧ (ev_stage <$> io_events run.1) = ["starting"; "downloading"; "downloading"].
Proof. vm_compute. repeat split; reflexivity. Qed.

(** a link whose key part has 27 characters: five words, and the
    derivation stops the download before any request or event *)
Example single_file_five_word_key :
  let run := download_file "https://mega.nz/file/abcdefgh#AAAAAAAAAAAAAAAAAAAAAAAAAAA"
               None (start Single.server) in
  run.2 = Raise (UnboundLocalError "key") ∧ io_events run.1 = [].
Proof. vm_compute. split; reflexivity. Qed.

End TreeRun.

(** * Further properties of the module *)

(** ** Bytes and words *)

Lemma byte_push_shiftr (acc b : Z) :
  is_byte b → Z.shiftr (Z.lor (Z.shiftl acc 8) b) 8 = acc.
Proof.
  intros [Hlo Hhi]. rewrite Z.shiftr_lor, Z.shiftr_shiftl_l by lia.
  rewrite Z.sub_diag, Z.shiftl_0_r.
  rewrite (Z.shiftr_div_pow2 b 8) by lia.
  rewrite Z.div_small by (change (2 ^ 8) with 256; lia).
  apply Z.lor_0_r.
Qed.

Lemma byte_push_land (acc b : Z) :
  is_byte b → Z.land (Z.lor (Z.shiftl acc 8) b) 255 = b.
Proof.
  intros [Hlo Hhi]. change 255 with (Z.ones 8).
  rewrite Z.land_lor_distr_l, !Z.land_ones by lia.
  rewrite Z.shiftl_mul_pow2, Z.mod_mul by lia.
  rewrite Z.mod_small by (change (2 ^ 8) with 256; lia).
  apply Z.lor_0_l.
Qed.

Lemma word_bytes_from_bytes (b0 b1 b2 b3 : Z) :
  is_byte b0 → is_byte b1 → is_byte b2 → is_byte b3 →
  word_bytes (from_bytes_big [b0; b1; b2; b3]) = [b0; b1; b2; b3].
Proof.
  intros H0 H1 H2 H3. unfold word_bytes, from_bytes_big. cbn [fold_left].
  change 24 with (8 + (8 + 8)). change 16 with (8 + 8).
  rewrite <- !Z.shiftr_shiftr by lia.
  rewrite !byte_push_shiftr by done.
  by rewrite !byte_push_land.
Qed.

Lemma byte_push_eq (acc b : Z) :
  is_byte b → Z.lor (Z.shiftl acc 8) b = acc * 256 + b.
Proof.
  intros Hb.
  pose proof (byte_push_shiftr acc b Hb) as Hs.
  pose proof (byte_push_land acc b Hb) as Hl.
  rewrite Z.shiftr_div_pow2 in Hs by lia.
  change 255 with (Z.ones 8) in Hl. rewrite Z.land_ones in Hl by lia.
  change (2 ^ 8) with 256 in *.
  pose proof (Z.div_mod (Z.lor (Z.shiftl acc 8) b) 256). lia.
Qed.

Lemma land_255_byte (x : Z) : is_byte (Z.land x 255).
Proof.
  unfold is_byte. change 255 with (Z.ones 8). rewrite Z.land_ones by lia.
  change (2 ^ 8) with 256. apply Z.mod_pos_bound. lia.
Qed.

Lemma Forall_word_bytes (w : Z) : Forall is_byte (word_bytes w).
Proof. unfold word_bytes. repeat constructor; apply land_255_byte. Qed.

Lemma from_bytes_word_bytes (w : Z) : word32 w → from_bytes_big (word_bytes w) = w.
Proof.
  intros [Hlo Hhi]. unfold word_bytes, from_bytes_big. cbn [fold_left].
  rewrite !byte_push_eq by apply land_255_byte.
  change 255 with (Z.ones 8). rewrite !Z.land_ones, !Z.shiftr_div_pow2 by lia.
  change (2 ^ 8) with 256. change (2 ^ 24) with 16777216.
  change (2 ^ 16) with 65536. change (2 ^ 32) with 4294967296 in Hhi.
  pose proof (Z.div_mod w 16777216). pose proof (Z.div_mod w 65536).
  pose proof (Z.div_mod w 256).
  pose proof (Z.mod_pos_bound w 16777216). pose proof (Z.mod_pos_bound w 65536).
  pose proof (Z.mod_pos_bound w 256).
  Z.div_mod_to_equations. lia.
Qed.

Lemma from_bytes_word32 (b0 b1 b2 b3 : Z) :
  is_byte b0 → is_byte b1 → is_byte b2 → is_byte b3 →
  word32 (from_bytes_big [b0; b1; b2; b3]).
Proof.
  intros H0 H1 H2 H3. unfold from_bytes_big. cbn [fold_left].
  rewrite !byte_push_eq by done. unfold is_byte, word32 in *.
  change (2 ^ 32) with 4294967296. lia.
Qed.

Lemma to_bytes4_inv (w : Z) (y : bytes) :
  to_bytes4 w = Ok y → word32 w ∧ y = word_bytes w.
Proof.
  unfold to_bytes4, word32.
  destruct (Z.leb_spec 0 w); [|done]. destruct (Z.ltb_spec w (2 ^ 32)); [|done].
  cbn [andb]. intros [= <-]. done.
Qed.

Lemma a32_to_bytes_inv (a : list Z) (bs : bytes) :
  _a32_to_bytes a = Ok bs → Forall word32 a ∧ bs = concat (map word_bytes a).
Proof.
  unfold _a32_to_bytes. revert bs. induction a as [|w a IH]; intros bs Hbs.
  - cbn in Hbs. inversion Hbs. split; [constructor|done].
  - cbn [mapM_result] in Hbs.
    destruct (to_bytes4 w) as [y|] eqn:Hw; [|done].
    apply to_bytes4_inv in Hw as [Hw ->]. rewrite bind_Ok in Hbs.
    destruct (mapM_result to_bytes4 a) as [ys|] eqn:Hys; [|done].
    destruct (IH (concat ys)) as [Ha Hc]; [done|].
    cbn in Hbs. inversion Hbs; subst bs. split.
    + by constructor.
    + cbn [map concat]. by rewrite <- Hc.
Qed.

Lemma words_big_of_words (a : list Z) :
  Forall word32 a → words_big (concat (map word_bytes a)) = a.
Proof.
  induction 1 as [|w a Hw _ IH]; [done|].
  cbn [map concat]. change (word_bytes w ++ ?r) with
    (Z.land (Z.shiftr w 24) 255 :: Z.land (Z.shiftr w 16) 255
     :: Z.land (Z.shiftr w 8) 255 :: Z.land w 255 :: r).
  cbn [words_big]. rewrite IH. f_equal. by apply (from_bytes_word_bytes w).
Qed.

Lemma words_big_whole (n : nat) :
  ∀ b : bytes, length b = (4 * n)%nat → Forall is_byte b →
    Forall word32 (words_big b)
    ∧ concat (map word_bytes (words_big b)) = b
    ∧ length (words_big b) = n.
Proof.
  induction n as [|n IH]; intros b Hlen Hb.
  - destruct b; [|done]. cbn. by repeat split.
  - destruct b as [|b0 [|b1 [|b2 [|b3 r]]]]; cbn [length] in Hlen; try lia.
    apply Forall_cons in Hb as [H0 Hb]. apply Forall_cons in Hb as [H1 Hb].
    apply Forall_cons in Hb as [H2 Hb]. apply Forall_cons in Hb as [H3 Hb].
    destruct (IH r) as (Hw & Hc & Hl); [lia|done|].
    cbn [words_big]. split; [|split].
    + constructor; [by apply from_bytes_word32|done].
    + cbn [map concat]. rewrite Hc. by rewrite word_bytes_from_bytes.
    + cbn [length]. by rewrite Hl.
Qed.

Lemma length_pad4 (b : bytes) :
  length (pad4 b) = (4 * ((length b + 3) / 4))%nat.
Proof.
  unfold pad4. rewrite length_app, repeat_length.
  pose proof (Nat.div_mod_eq (length b) 4) as Hd.
  pose proof (Nat.mod_upper_bound (length b) 4 ltac:(lia)) as Hm.
  set (q := (length b / 4)%nat) in *.
  destruct (length b mod 4)%nat as [|[|[|[|r]]]] eqn:Hr; [..|lia];
    rewrite Hd;
    [ replace (4 * q + 0 + 3)%nat with (3 + q * 4)%nat by lia
    | replace (4 * q + 1 + 3)%nat with (0 + (q + 1) * 4)%nat by lia
    | replace (4 * q + 2 + 3)%nat with (1 + (q + 1) * 4)%nat by lia
    | replace (4 * q + 3 + 3)%nat with (2 + (q + 1) * 4)%nat by lia ];
    rewrite Nat.div_add by lia; cbn; lia.
Qed.

Lemma bytes_to_a32_pad4 (b : bytes) : _bytes_to_a32 b = words_big (pad4 b).
Proof.
  unfold _bytes_to_a32, pad4.
  pose proof (Nat.mod_upper_bound (length b) 4 ltac:(lia)) as Hm.
  destruct (Nat.eqb_spec (length b mod 4) 0) as [H0|H0].
  - rewrite H0. cbn. by rewrite app_nil_r.
  - by rewrite (Nat.mod_small (4 - _)) by lia.
Qed.

(** X1: bytes to words and back gives the bytes, zero-padded to a whole
    number of words; the word count is the byte count divided by four,
    rounded up. *)
Theorem bytes_a32_round_trip (b : bytes) :
  Forall is_byte b →
  _a32_to_bytes (_bytes_to_a32 b) = Ok (pad4 b)
  ∧ length (_bytes_to_a32 b) = ((length b + 3) / 4)%nat
  ∧ ((length b mod 4 = 0)%nat → _a32_to_bytes (_bytes_to_a32 b) = Ok b).
Proof.
  intros Hb.
  assert (Hp : Forall is_byte (pad4 b)).
  { unfold pad4. apply Forall_app. split; [done|].
    apply Forall_forall. intros x Hx%list_elem_of_In%repeat_spec. subst. done. }
  destruct (words_big_whole ((length b + 3) / 4) (pad4 b) (length_pad4 b) Hp)
    as (Hw & Hc & Hl).
  rewrite bytes_to_a32_pad4. rewrite (a32_to_bytes_ok _ Hw), Hc.
  split; [done|]. split; [done|].
  intros H0. unfold pad4. rewrite H0. cbn. by rewrite app_nil_r.
Qed.

Lemma bytes_a32_round_trip_witness :
  _a32_to_bytes (_bytes_to_a32 [1; 2; 3; 4; 5]) = Ok [1; 2; 3; 4; 5; 0; 0; 0]
  ∧ length (_bytes_to_a32 [1; 2; 3; 4; 5]) = 2%nat.
Proof.
  destruct (bytes_a32_round_trip [1; 2; 3; 4; 5]) as (H1 & H2 & _).
  - repeat constructor; unfold is_byte; lia.
  - split; [exact H1|exact H2].
Defined.

(** X2: whatever [_a32_to_bytes] returns decodes back to the same words,
    four bytes per word; it returns only for arrays of 32-bit words. *)
Theorem a32_bytes_round_trip (a : list Z) (bs : bytes) :
  _a32_to_bytes a = Ok bs →
  _bytes_to_a32 bs = a ∧ length bs = (4 * length a)%nat ∧ Forall word32 a.
Proof.
  intros Hbs. apply a32_to_bytes_inv in Hbs as [Ha ->].
  rewrite length_words_bytes. split; [|done].
  unfold _bytes_to_a32. rewrite length_words_bytes.
  replace (4 * length a)%nat with (length a * 4)%nat by lia.
  rewrite Nat.Div0.mod_mul. cbn [Nat.eqb]. by apply words_big_of_words.
Qed.

Lemma a32_bytes_round_trip_witness :
  _bytes_to_a32 [0; 0; 1; 0; 255; 255; 255; 255] = [256; 4294967295].
Proof.
  refine (proj1 (a32_bytes_round_trip [256; 4294967295] _ _)). reflexivity.
Defined.

(** X3: XOR-ing word arrays truncates to the shorter one, and XOR-ing the
    result with the second array again gives back the first (cut to that
    length). *)
Theorem xor_a32_twice (a b : list Z) :
  length (_xor_a32 a b) = (length a `min` length b)%nat
  ∧ _xor_a32 (_xor_a32 a b) b = take (length b) a.
Proof.
  unfold _xor_a32, xor_zip. split; [apply length_zip_with|].
  revert b. induction a as [|x a IH]; intros [|y b]; cbn; try done.
  rewrite IH. f_equal.
  by rewrite Z.lxor_assoc, Z.lxor_nilpotent, Z.lxor_0_r.
Qed.

Lemma land_lxor_distr (a b c : Z) :
  Z.land (Z.lxor a b) c = Z.lxor (Z.land a c) (Z.land b c).
Proof.
  apply Z.bits_inj'. intros n Hn.
  rewrite Z.land_spec, !Z.lxor_spec, !Z.land_spec.
  by destruct (Z.testbit a n), (Z.testbit b n), (Z.testbit c n).
Qed.

Lemma word_bytes_lxor (x y : Z) :
  word_bytes (Z.lxor x y) = zip_with Z.lxor (word_bytes x) (word_bytes y).
Proof. unfold word_bytes. cbn. by rewrite !Z.shiftr_lxor, !land_lxor_distr. Qed.

Lemma words_bytes_xor (a b : list Z) :
  length a = length b →
  concat (map word_bytes (zip_with Z.lxor a b))
  = zip_with Z.lxor (concat (map word_bytes a)) (concat (map word_bytes b)).
Proof.
  revert b. induction a as [|x a IH]; intros [|y b] Hl; try done.
  cbn [zip_with map concat]. rewrite word_bytes_lxor, IH by (cbn in Hl; lia).
  unfold word_bytes. reflexivity.
Qed.

Lemma take_words_bytes (n : nat) (ws : list Z) :
  take (4 * n) (concat (map word_bytes ws)) = concat (map word_bytes (take n ws)).
Proof.
  revert ws. induction n as [|n IH]; intros ws; [done|].
  destruct ws as [|w ws]; [done|].
  replace (4 * S n)%nat with (4 + 4 * n)%nat by lia.
  cbn [map concat take]. unfold word_bytes at 1 3. cbn [app take Nat.add].
  by rewrite IH.
Qed.

Lemma drop_words_bytes (n : nat) (ws : list Z) :
  drop (4 * n) (concat (map word_bytes ws)) = concat (map word_bytes (drop n ws)).
Proof.
  revert ws. induction n as [|n IH]; intros ws; [done|].
  destruct ws as [|w ws]; [done|].
  replace (4 * S n)%nat with (4 + 4 * n)%nat by lia.
  cbn [map concat drop]. unfold word_bytes at 1. cbn [app drop Nat.add].
  by rewrite IH.
Qed.

Lemma Forall_pad4 (b : bytes) : Forall is_byte b → Forall is_byte (pad4 b).
Proof.
  intros Hb. unfold pad4. apply Forall_app. split; [done|].
  apply Forall_forall. intros x Hx%list_elem_of_In%repeat_spec. by subst.
Qed.

(** the words of a byte string, and the bytes of those words *)
Lemma bytes_to_a32_words (b : bytes) :
  Forall is_byte b →
  Forall word32 (_bytes_to_a32 b)
  ∧ concat (map word_bytes (_bytes_to_a32 b)) = pad4 b
  ∧ length (_bytes_to_a32 b) = ((length b + 3) / 4)%nat.
Proof.
  intros Hb. rewrite bytes_to_a32_pad4.
  apply (words_big_whole _ (pad4 b) (length_pad4 b) (Forall_pad4 b Hb)).
Qed.

Lemma derive_sizes (k : list Z) (key iv : bytes) :
  _derive_key_iv_from_k k = Ok (key, iv) →
  (length k = 4%nat ∨ (8 ≤ length k)%nat)
  ∧ length key = 16%nat ∧ length iv = 8%nat.
Proof.
  unfold _derive_key_iv_from_k.
  destruct (Nat.eqb_spec (length k) 4) as [H4|H4].
  - destruct (_a32_to_bytes k) as [kb|] eqn:Hk; [|done].
    rewrite bind_Ok. intros [= <- <-].
    apply a32_to_bytes_inv in Hk as [_ ->].
    rewrite length_words_bytes, H4. by split; [left|].
  - destruct (Nat.leb_spec 8 (length k)) as [H8|H8].
    + destruct (_a32_to_bytes (_xor_a32 _ _)) as [kb|] eqn:Hk; [|done].
      cbn [fmap result_fmap]. rewrite bind_Ok.
      destruct (_a32_to_bytes (take 2 _)) as [ivb|] eqn:Hiv; [|done].
      rewrite bind_Ok. intros [= <- <-].
      apply a32_to_bytes_inv in Hk as [_ ->].
      apply a32_to_bytes_inv in Hiv as [_ ->].
      rewrite !length_words_bytes. unfold _xor_a32, xor_zip.
      rewrite length_zip_with, !length_take, length_drop.
      split; [by right|]. lia.
    + rewrite bind_Ok.
      destruct (_a32_to_bytes (take 2 _)) as [ivb|]; [|done].
      by rewrite bind_Ok.
Qed.

(** X4: whenever key derivation returns, the array had four words or at
    least eight, the key has 16 bytes and the IV has 8 bytes. *)
Theorem derive_returns_sizes (k : list Z) (key iv : bytes) :
  _derive_key_iv_from_k k = Ok (key, iv) →
  (length k = 4%nat ∨ (8 ≤ length k)%nat)
  ∧ length key = 16%nat ∧ length iv = 8%nat.
Proof. apply derive_sizes. Qed.

Lemma derive_returns_sizes_witness :
  (length [1; 2; 3; 4; 5; 6; 7; 8; 9] = 4%nat ∨ (8 ≤ length [1; 2; 3; 4; 5; 6; 7; 8; 9])%nat)
  ∧ length [0; 0; 0; 4; 0; 0; 0; 4; 0; 0; 0; 4; 0; 0; 0; 12] = 16%nat
  ∧ length [0; 0; 0; 5; 0; 0; 0; 6] = 8%nat.
Proof.
  apply (derive_returns_sizes [1; 2; 3; 4; 5; 6; 7; 8; 9]). reflexivity.
Defined.

Lemma derive_node_key (kb : bytes) :
  Forall is_byte kb → length kb = 16%nat →
  _derive_key_iv_from_k (_bytes_to_a32 kb) = Ok (kb, repeat 0 8).
Proof.
  intros Hb Hl. destruct (bytes_to_a32_words kb Hb) as (Hw & Hc & Hn).
  rewrite Hl in Hn. change ((16 + 3) / 4)%nat with 4%nat in Hn.
  unfold _derive_key_iv_from_k. rewrite Hn. cbn [Nat.eqb].
  rewrite (a32_to_bytes_ok _ Hw), Hc, bind_Ok.
  unfold pad4. rewrite Hl. cbn. by rewrite app_nil_r.
Qed.

(** X5: in the folder loop a 16-byte node key is used as it is: it is the
    AES key of the file, and the counter nonce is eight zero bytes. *)
Theorem node_key_is_file_key (kb : bytes) :
  Forall is_byte kb → length kb = 16%nat →
  _derive_key_iv_from_k (_bytes_to_a32 kb) = Ok (kb, repeat 0 8).
Proof. apply derive_node_key. Qed.

Lemma node_key_is_file_key_witness :
  _derive_key_iv_from_k (_bytes_to_a32 (repeat 68 16)) = Ok (repeat 68 16, repeat 0 8).
Proof.
  apply (node_key_is_file_key (repeat 68 16)); [|reflexivity].
  repeat constructor; unfold is_byte; lia.
Defined.

(** X6: for a link key of 32 bytes or more, the AES key is the XOR of
    bytes 0-15 with bytes 16-31 and the counter nonce is bytes 16-23. *)
Theorem link_key_folds_halves (kb : bytes) :
  Forall is_byte kb → (32 ≤ length kb)%nat →
  _derive_key_iv_from_k (_bytes_to_a32 kb)
  = Ok (xor_zip (take 16 kb) (take 16 (drop 16 kb)), take 8 (drop 16 kb)).
Proof.
  intros Hb Hl. destruct (bytes_to_a32_words kb Hb) as (Hw & Hc & Hn).
  set (ws := _bytes_to_a32 kb) in *.
  assert (H8 : (8 ≤ length ws)%nat).
  { rewrite Hn. apply (Nat.div_le_lower_bound _ 4 8); lia. }
  unfold _derive_key_iv_from_k.
  destruct (Nat.eqb_spec (length ws) 4); [lia|].
  destruct (Nat.leb_spec 8 (length ws)); [|lia].
  assert (Hx : Forall word32 (_xor_a32 (take 4 ws) (take 4 (drop 4 ws)))).
  { apply Forall_word32_xor; repeat (apply Forall_take || apply Forall_drop); done. }
  rewrite (a32_to_bytes_ok _ Hx). cbn [fmap result_fmap]. rewrite bind_Ok.
  rewrite a32_to_bytes_ok by (by apply Forall_take, Forall_drop). rewrite bind_Ok.
  unfold _xor_a32, xor_zip.
  rewrite words_bytes_xor by (rewrite !length_take, length_drop; lia).
  rewrite <- !(take_words_bytes _ _), <- !(drop_words_bytes 4 ws), Hc.
  change (4 * 4)%nat with 16%nat. change (4 * 2)%nat with 8%nat.
  unfold pad4.
  rewrite !(take_app_le kb) by lia.
  rewrite !drop_app_le by lia.
  rewrite !take_app_le by (rewrite length_drop; lia). done.
Qed.

Lemma link_key_folds_halves_witness :
  _derive_key_iv_from_k (_bytes_to_a32 (seqZ 0 32))
  = Ok (repeat 16 16, [16; 17; 18; 19; 20; 21; 22; 23]).
Proof.
  refine (link_key_folds_halves (seqZ 0 32) _ _).
  - apply Forall_forall. intros x Hx%elem_of_seqZ. unfold is_byte. lia.
  - rewrite length_seqZ. lia.
Defined.

(** ** Decoding link keys *)

Lemma list_ascii_app (a b : string) :
  list_ascii_of_string (a +:+ b) = list_ascii_of_string a ++ list_ascii_of_string b.
Proof. induction a as [|c a IH]; simpl; [done|]. by f_equal. Qed.

Lemma length_list_ascii (s : string) :
  length (list_ascii_of_string s) = String.length s.
Proof. induction s as [|c s IH]; cbn; [done|]. by rewrite IH. Qed.

Lemma length_string_of_list (l : list ascii) :
  String.length (string_of_list_ascii l) = length l.
Proof. induction l as [|c l IH]; cbn; [done|]. by rewrite IH. Qed.

Lemma b64_value_bound (c : ascii) (v : Z) :
  Base64.value c = Some v → 0 ≤ v < 64.
Proof.
  unfold Base64.value. set (n := Z.of_nat (nat_of_ascii c)).
  repeat match goal with
  | |- context [?a <=? ?b] => destruct (Z.leb_spec a b)
  | |- context [?a =? ?b] => destruct (Z.eqb_spec a b)
  end; cbn [andb]; intros [= <-]; lia.
Qed.

Lemma urlsafe_char_data (c : ascii) :
  is_urlsafe_char c = true →
  b64_data ((λ c, if Ascii.eqb c "_" then "/"%char else c)
              ((λ c, if Ascii.eqb c "-" then "+"%char else c) c)).
Proof.
  destruct c as [[] [] [] [] [] [] [] []]; vm_compute; intros Hc;
    try discriminate Hc; (split; [eexists; reflexivity|split; reflexivity]).
Qed.

Lemma lor_byte (a b : Z) : is_byte a → is_byte b → is_byte (Z.lor a b).
Proof.
  unfold is_byte. intros [Ha0 Ha] [Hb0 Hb]. split; [by apply Z.lor_nonneg|].
  destruct (decide (a = 0)) as [->|Hna]; [by rewrite Z.lor_0_l|].
  destruct (decide (b = 0)) as [->|Hnb]; [by rewrite Z.lor_0_r|].
  assert (0 < Z.lor a b).
  { pose proof (Z.lor_nonneg a b). destruct (decide (Z.lor a b = 0)) as [H0|]; [|lia].
    apply Z.lor_eq_0_iff in H0. lia. }
  change 256 with (2 ^ 8) in *. apply Z.log2_lt_pow2; [done|].
  rewrite Z.log2_lor by done.
  assert (Z.log2 a < 8) by (apply Z.log2_lt_pow2; lia).
  assert (Z.log2 b < 8) by (apply Z.log2_lt_pow2; lia). lia.
Qed.

Lemma sextet_bytes (u v : Z) :
  0 ≤ u < 64 → 0 ≤ v < 64 →
  is_byte (Z.lor (Z.shiftl u 2) (Z.shiftr v 4))
  ∧ is_byte (Z.lor (Z.shiftl (Z.land u 15) 4) (Z.shiftr v 2))
  ∧ is_byte (Z.lor (Z.shiftl (Z.land u 3) 6) v).
Proof.
  intros Hu Hv.
  assert (H15 : 0 ≤ Z.land u 15 < 16).
  { change 15 with (Z.ones 4). rewrite Z.land_ones by lia. apply Z.mod_pos_bound. lia. }
  assert (H3 : 0 ≤ Z.land u 3 < 4).
  { change 3 with (Z.ones 2). rewrite Z.land_ones by lia. apply Z.mod_pos_bound. lia. }
  rewrite !Z.shiftl_mul_pow2, !Z.shiftr_div_pow2 by lia.
  change (2 ^ 2) with 4. change (2 ^ 4) with 16. change (2 ^ 6) with 64.
  assert (0 ≤ v `div` 16 < 4) by (split; [apply Z.div_pos|apply Z.div_lt_upper_bound]; lia).
  assert (0 ≤ v `div` 4 < 16) by (split; [apply Z.div_pos|apply Z.div_lt_upper_bound]; lia).
  repeat split; try (apply lor_byte; unfold is_byte; lia).
Qed.

(** four data characters give three bytes and leave the decoder in its
    initial state *)
Lemma a2b_quad (c1 c2 c3 c4 : ascii) (rest : list ascii) (lc : Z) (pads : nat)
    (out : bytes) :
  b64_data c1 → b64_data c2 → b64_data c3 → b64_data c4 →
  ∃ x y z, is_byte x ∧ is_byte y ∧ is_byte z
    ∧ Base64.a2b (c1 :: c2 :: c3 :: c4 :: rest) 0 lc pads out
      = Base64.a2b rest 0 0 0 (out ++ [x; y; z]).
Proof.
  intros ([v1 Hv1] & Hp1 & _) ([v2 Hv2] & Hp2 & _) ([v3 Hv3] & Hp3 & _)
         ([v4 Hv4] & Hp4 & _).
  pose proof (b64_value_bound _ _ Hv1). pose proof (b64_value_bound _ _ Hv2).
  pose proof (b64_value_bound _ _ Hv3). pose proof (b64_value_bound _ _ Hv4).
  destruct (sextet_bytes v1 v2) as (Hx & _ & _); [done..|].
  destruct (sextet_bytes v2 v3) as (_ & Hy & _); [done..|].
  destruct (sextet_bytes v3 v4) as (_ & _ & Hz); [done..|].
  eexists _, _, _. split; [exact Hx|]. split; [exact Hy|]. split; [exact Hz|].
  cbn [Base64.a2b]. rewrite Hp1, Hv1. cbn [Nat.eqb]. rewrite Hp2, Hv2, Hp3, Hv3, Hp4, Hv4.
  by rewrite <- !app_assoc.
Qed.

Ltac bytes_appended :=
  repeat (apply Forall_app; split); try done;
  repeat (apply Forall_cons; split; [done|]); by apply Forall_nil.

Lemma a2b_quads (k : nat) :
  ∀ (ds rest : list ascii) (out : bytes),
    length ds = (4 * k)%nat → Forall b64_data ds → Forall is_byte out →
    ∃ out', Base64.a2b (ds ++ rest) 0 0 0 out = Base64.a2b rest 0 0 0 out'
      ∧ length out' = (length out + 3 * k)%nat ∧ Forall is_byte out'.
Proof.
  induction k as [|k IH]; intros ds rest out Hl Hd Ho.
  - destruct ds; [|done]. exists out. split; [done|]. split; [lia|done].
  - destruct ds as [|c1 [|c2 [|c3 [|c4 ds]]]]; cbn [length] in Hl; try lia.
    apply Forall_cons in Hd as [H1 Hd]. apply Forall_cons in Hd as [H2 Hd].
    apply Forall_cons in Hd as [H3 Hd]. apply Forall_cons in Hd as [H4 Hd].
    destruct (a2b_quad c1 c2 c3 c4 (ds ++ rest) 0 0 out H1 H2 H3 H4)
      as (x & y & z & Hx & Hy & Hz & Hq).
    destruct (IH ds rest (out ++ [x; y; z])) as (out' & Hr & Hlen & Hb);
      [lia|done|bytes_appended|].
    exists out'. cbn [app]. rewrite Hq, Hr. split; [done|]. split; [|done].
    rewrite Hlen, length_app. cbn [length]. lia.
Qed.

(** a ragged tail of one to three data characters, followed by the
    padding that [_mega_b64_decode] appends *)
Lemma a2b_tail (tl : list ascii) (out : bytes) :
  Forall b64_data tl → Forall is_byte out → (length tl < 4)%nat →
  let padded := tl ++ repeat "="%char ((4 - length tl mod 4) mod 4) in
  match length tl with
  | 1%nat => Base64.a2b padded 0 0 0 out = Raise BinasciiError
  | n => ∃ out', Base64.a2b padded 0 0 0 out = Ok out'
           ∧ length out' = (length out + 3 * n / 4)%nat ∧ Forall is_byte out'
  end.
Proof.
  intros Hd Ho Hl.
  destruct tl as [|c1 [|c2 [|c3 [|c4 tl]]]]; cbn [length] in *; try lia.
  - exists out. cbn. split; [done|]. split; [lia|done].
  - apply Forall_cons in Hd as [([v1 Hv1] & Hp1 & _) _].
    cbn. by rewrite Hp1, Hv1.
  - apply Forall_cons in Hd as [([v1 Hv1] & Hp1 & _) Hd].
    apply Forall_cons in Hd as [([v2 Hv2] & Hp2 & _) _].
    pose proof (b64_value_bound _ _ Hv1). pose proof (b64_value_bound _ _ Hv2).
    destruct (sextet_bytes v1 v2) as (Hx & _ & _); [done..|].
    eexists. cbn. rewrite Hp1, Hv1, Hp2, Hv2. split; [reflexivity|].
    split; [rewrite length_app; cbn; lia|].
    bytes_appended.
  - apply Forall_cons in Hd as [([v1 Hv1] & Hp1 & _) Hd].
    apply Forall_cons in Hd as [([v2 Hv2] & Hp2 & _) Hd].
    apply Forall_cons in Hd as [([v3 Hv3] & Hp3 & _) _].
    pose proof (b64_value_bound _ _ Hv1). pose proof (b64_value_bound _ _ Hv2).
    pose proof (b64_value_bound _ _ Hv3).
    destruct (sextet_bytes v1 v2) as (Hx & _ & _); [done..|].
    destruct (sextet_bytes v2 v3) as (_ & Hy & _); [done..|].
    eexists. cbn. rewrite Hp1, Hv1, Hp2, Hv2, Hp3, Hv3. split; [reflexivity|].
    split; [rewrite !length_app; cbn; lia|].
    bytes_appended.
Qed.

Lemma mega_b64_decode_urlsafe (s : string) :
  urlsafe s = true →
  if decide (String.length s mod 4 = 1)%nat
  then _mega_b64_decode s = Raise BinasciiError
  else ∃ b, _mega_b64_decode s = Ok b
         ∧ length b = (3 * String.length s / 4)%nat ∧ Forall is_byte b.
Proof.
  intros Hs. unfold _mega_b64_decode, str_replace_char, str_repeat, Base64.b64decode.
  rewrite list_ascii_of_string_of_list_ascii, length_string_of_list.
  rewrite list_ascii_app, !list_ascii_of_string_of_list_ascii, !length_map.
  rewrite map_map, length_list_ascii.
  set (ds := map _ (list_ascii_of_string s)).
  set (n := String.length s).
  assert (Hlen : length ds = n) by (unfold ds; by rewrite length_map, length_list_ascii).
  assert (Hds : Forall b64_data ds).
  { unfold ds, urlsafe in *. apply Forall_forall. intros c Hc.
    apply list_elem_of_fmap in Hc as (c0 & -> & Hc0).
    apply urlsafe_char_data.
    rewrite forallb_forall in Hs. apply Hs. by apply list_elem_of_In. }
  assert (Hascii : forallb Base64.is_ascii (ds ++ repeat "="%char ((4 - n mod 4) mod 4)) = true).
  { rewrite forallb_app. apply andb_true_intro. split; apply forallb_forall.
    - intros c Hc%list_elem_of_In. rewrite Forall_forall in Hds.
      by destruct (Hds c Hc) as (_ & _ & ?).
    - by intros c ->%repeat_spec. }
  rewrite Hascii.
  pose proof (Nat.div_mod_eq n 4) as Hdm.
  pose proof (Nat.mod_upper_bound n 4 ltac:(lia)) as Hm.
  rewrite <- (take_drop (4 * (n / 4)) ds), <- app_assoc.
  destruct (a2b_quads (n / 4) (take (4 * (n / 4)) ds)
              (drop (4 * (n / 4)) ds ++ repeat "="%char ((4 - n mod 4) mod 4)) [])
    as (out & Hq & Hol & Hob).
  { rewrite length_take. lia. }
  { by apply Forall_take. }
  { constructor. }
  rewrite Hq. cbn [length Nat.add] in Hol.
  assert (Htl : length (drop (4 * (n / 4)) ds) = (n mod 4)%nat)
    by (rewrite length_drop; lia).
  pose proof (a2b_tail (drop (4 * (n / 4)) ds) out
                (Forall_drop _ _ _ Hds) Hob ltac:(lia)) as Ht.
  cbn zeta in Ht. rewrite Htl, Nat.Div0.mod_mod in Ht.
  assert (H3n : (3 * n / 4 = 3 * (n / 4) + 3 * (n mod 4) / 4)%nat).
  { rewrite Hdm at 1.
    replace (3 * (4 * (n / 4) + n mod 4))%nat
      with (3 * (n mod 4) + 3 * (n / 4) * 4)%nat by lia.
    rewrite Nat.div_add by lia. lia. }
  destruct (decide (n mod 4 = 1)%nat) as [H1|H1].
  - rewrite H1 in Ht |- *. exact Ht.
  - destruct (n mod 4)%nat as [|[|r]] eqn:Hr; [|done|];
      destruct Ht as (out' & Ho' & Hl' & Hb'); exists out';
      (split; [done|split; [|done]]); rewrite Hl', Hol, H3n; done.
Qed.

(** X7: on a key made of the characters the link patterns accept,
    decoding raises binascii.Error exactly when the length is 1 modulo 4;
    otherwise it returns floor(3n/4) bytes. *)
Theorem link_key_decode (s : string) :
  urlsafe s = true →
  ((String.length s mod 4 = 1)%nat → _mega_b64_decode s = Raise BinasciiError)
  ∧ ((String.length s mod 4 ≠ 1)%nat →
     ∃ b, _mega_b64_decode s = Ok b
       ∧ length b = (3 * String.length s / 4)%nat ∧ Forall is_byte b).
Proof.
  intros Hs. pose proof (mega_b64_decode_urlsafe s Hs) as H.
  destruct (decide (String.length s mod 4 = 1)%nat); split; done.
Qed.

Lemma link_key_decode_witness :
  _mega_b64_decode "AAAAAAAAAAAAAAAAA" = Raise BinasciiError.
Proof.
  refine (proj1 (link_key_decode "AAAAAAAAAAAAAAAAA" _) _); reflexivity.
Defined.

Section ParseFacts.
Context `{ExternalLib}.

(** X8: a file link that matches the pattern is never rejected with a
    validation error: its key decodes to ceil(floor(3n/4)/4) words, or, when
    the key length is 1 modulo 4, parsing raises binascii.Error. *)
Theorem parse_file_link_matched (url file_id key : string) :
  re_file_link url = Some (file_id, key) → urlsafe key = true →
  ((String.length key mod 4 = 1)%nat → _parse_file_link url = Raise BinasciiError)
  ∧ ((String.length key mod 4 ≠ 1)%nat →
     ∃ k_a32, _parse_file_link url = Ok (file_id, k_a32)
       ∧ length k_a32 = ((3 * String.length key / 4 + 3) / 4)%nat
       ∧ Forall word32 k_a32).
Proof.
  intros Hre Hs. unfold _parse_file_link. rewrite Hre.
  pose proof (mega_b64_decode_urlsafe key Hs) as Hd.
  destruct (decide (String.length key mod 4 = 1)%nat) as [H1|H1].
  - split; [|done]. intros _. by rewrite Hd.
  - split; [done|]. intros _. destruct Hd as (b & -> & Hl & Hb).
    destruct (bytes_to_a32_words b Hb) as (Hw & _ & Hn).
    eexists. rewrite bind_Ok. split; [reflexivity|]. by rewrite Hn, Hl.
Qed.


End ParseFacts.

Section ParseRun.
Import Toy.

Lemma parse_file_link_matched_witness :
  ∃ k_a32, _parse_file_link Single.link = Ok ("abcdefgh", k_a32)
    ∧ length k_a32 = 8%nat ∧ Forall word32 k_a32.
Proof.
  refine (proj2 (parse_file_link_matched Single.link "abcdefgh"
            "AAECAwQFBgcICQoLDA0ODxAREhMUFRYXGBkaGxwdHh8" _ _) _);
    [reflexivity|reflexivity|vm_compute; discriminate].
Defined.


End ParseRun.

(** ** Attribute decryption: when it returns *)

Section AttrReturns.
Context `{ExternalLib}.

(** X10: attribute decryption returns exactly when the blob decodes, the
    key has 16, 24 or 32 bytes and the decoded blob is a whole number of
    16-byte blocks; in every other case it raises. *)
Theorem decrypt_attrs_returns_iff (attr_b64 : string) (key_bytes : bytes) :
  (∃ attrs, _decrypt_attrs attr_b64 key_bytes = Ok attrs)
  ↔ ∃ data, _mega_b64_decode attr_b64 = Ok data
      ∧ aes_key_ok key_bytes = true ∧ (length data mod 16 = 0)%nat.
Proof.
  unfold _decrypt_attrs, aes_cbc_decrypt.
  destruct (_mega_b64_decode attr_b64) as [data|e]; [rewrite bind_Ok|].
  - destruct (aes_key_ok key_bytes); cbn [negb].
    + cbn [length repeat Nat.eqb negb].
      destruct (Nat.eqb_spec (length data mod 16) 0) as [H0|H0]; cbn [negb].
      * rewrite bind_Ok. split; [intros _; by exists data|intros _].
        destruct (startswith _ _); cbn [negb]; eauto.
      * split; [by intros [? ?]|]. intros (d & [= <-] & _ & ?). done.
    + split; [by intros [? ?]|]. by intros (d & _ & ? & _).
  - split; [by intros [? ?]|]. by intros (d & ? & _).
Qed.

End AttrReturns.

(** ** Transfers *)



Section TransferFacts.
Context `{ExternalLib} {W : Type} `{World W}.




Lemma fetch_body_open_raises (g_url : string) (path : Path) (name : string)
    (size : Z) (idx : option Z) (c : ctr_cipher) (st : io_state W) (w w' : W)
    (chunks : list bytes) (ending : body_end) (e : exn) :
  http_get (io_world st) g_url = (w, HttpStream chunks ending) →
  fs_open w path = (w', Raise e) →
  fetch_body g_url path name size idx c st
  = ({| io_world := w'; io_events := io_events st; io_files := io_files st |},
     Raise e).
Proof.
  intros Hget Hopen. unfold fetch_body, io_bind at 1, with_world. rewrite Hget.
  cbn [io_lift]. unfold io_bind at 1. rewrite open_wb_run.
  cbn [io_world io_events io_files]. by rewrite Hopen.
Qed.


(** X24: when the file system refuses the output directory, a single-file
    download raises that error before any event and before the media
    server is contacted; when it refuses to open [out_dir / name] (the name
    comes from the server: it may lead into a missing directory or name a
    directory), the download raises that error after the [starting] event:
    nothing is written and no [done] event is emitted. *)
Theorem download_file_fs_refusal (file_url : string)
    (dest_dir : option string) (st : io_state W) (file_id : string)
    (k_a32 : list Z) (key iv : bytes) (w1 : W) (resp : api_reply)
    (g_url name : string) (size : Z) :
  str_contains "mega.nz" file_url = true →
  _parse_file_link file_url = Ok (file_id, k_a32) →
  _derive_key_iv_from_k k_a32 = Ok (key, iv) →
  api_file (io_world st) file_id = (w1, Ok resp) →
  reply_g resp = Some g_url → reply_s resp = Some size →
  file_name resp key = Ok name →
  (∀ w2 e,
     fs_mkdir w1 (out_dir_of dest_dir) = (w2, Raise e) →
     download_file file_url dest_dir st
     = ({| io_world := w2; io_events := io_events st; io_files := io_files st |},
        Raise e))
  ∧ (∀ w2 w3 w4 chunks ending e,
       fs_mkdir w1 (out_dir_of dest_dir) = (w2, Ok ()) →
       http_get w2 g_url = (w3, HttpStream chunks ending) →
       fs_open w3 (path_div (out_dir_of dest_dir) name) = (w4, Raise e) →
       download_file file_url dest_dir st
       = ({| io_world := w4;
             io_events := io_events st ++ [progress_event "starting" name size 0 None];
             io_files := io_files st |}, Raise e)).
Proof.
  intros Hurl Hparse Hder Hapi Hg Hs Hname.
  destruct (derive_sizes _ _ _ Hder) as (_ & Hkl & Hivl).
  split.
  - intros w2 e Hmk. unfold download_file. rewrite Hurl. cbn [negb].
    cbv beta iota zeta delta [io_bind io_lift io_raise io_ret call with_world _emit].
    rewrite Hparse, Hder, Hapi. cbn [io_world io_events io_files].
    rewrite Hg, Hs, Hname, mkdir_parents_run.
    cbn [io_world io_events io_files]. by rewrite Hmk.
  - intros w2 w3 w4 chunks ending e Hmk Hget Hopen.
    unfold download_file. rewrite Hurl. cbn [negb].
    cbv beta iota zeta delta [io_bind io_lift io_raise io_ret call with_world _emit].
    rewrite Hparse, Hder, Hapi. cbn [io_world io_events io_files].
    rewrite Hg, Hs, Hname, mkdir_parents_run.
    cbn [io_world io_events io_files]. rewrite Hmk. cbn [fst snd].
    unfold AES_new_CTR, aes_key_ok. rewrite Hkl, Hivl.
    rewrite bool_decide_true by (by apply list_elem_of_here). cbn [negb Nat.leb].
    match goal with |- context [fetch_body ?u ?p ?n ?s ?i ?c ?st1] =>
      rewrite (fetch_body_open_raises u p n s i c st1 w3 w4 chunks ending e Hget Hopen)
    end.
    reflexivity.
Qed.

(** X13: a URL without the host name, or one that matches no link pattern,
    is rejected with a validation error before any request: the state is
    left as it was (no request, no event, no file). *)
Theorem bad_link_rejected_offline (url : string) (dest_dir : option string)
    (st : io_state W) :
  (str_contains "mega.nz" url = false ∨ re_file_link url = None →
     ∃ msg, download_file url dest_dir st = (st, Raise (ValidationError msg)))
  ∧ (str_contains "mega.nz" url = false ∨ re_folder_link url = None →
     ∃ msg, download_folder url dest_dir st = (st, Raise (ValidationError msg))).
Proof.
  split; intros Hbad.
  - unfold download_file. destruct (str_contains "mega.nz" url); cbn [negb].
    + destruct Hbad as [?|Hre]; [done|].
      unfold io_bind, io_lift, _parse_file_link. rewrite Hre. eauto.
    + unfold io_raise. eauto.
  - unfold download_folder. destruct (str_contains "mega.nz" url); cbn [negb].
    + destruct Hbad as [?|Hre]; [done|].
      unfold io_bind, io_lift, _parse_folder_link. rewrite Hre. eauto.
    + unfold io_raise. eauto.
Qed.

End TransferFacts.

Section TransferRun.
Import Toy.



Lemma download_file_fs_refusal_witness :
  download_file Single.link None (start Single.blocked_server)
  = ({| io_world := Single.blocked_server;
        io_events := [progress_event "starting" "doc.bin" 35 0 None];
        io_files := ∅ |}, Raise (OSError "IsADirectoryError")).
Proof.
  refine (proj2 (download_file_fs_refusal Single.link None (start Single.blocked_server)
                   "abcdefgh" _ (repeat 16 16) [16; 17; 18; 19; 20; 21; 22; 23]
                   Single.blocked_server
                   (Single.reply "XVVXUWsyfjIqMnR_cz5yeSNnOkF7Im4iOiJkb2MuYmk")
                   "http://media/file" "doc.bin" 35 _ _ _ _ _ _ _)
            Single.blocked_server Single.blocked_server Single.blocked_server
            [take 10 Single.body_cipher; take 10 (drop 10 Single.body_cipher);
             drop 20 Single.body_cipher] BodyEof (OSError "IsADirectoryError") _ _ _);
    reflexivity.
Defined.

Lemma bad_link_rejected_offline_witness :
  ∃ msg, download_folder "https://example.org/folder/abcdefgh" None (start Tree.server)
         = (start Tree.server, Raise (ValidationError msg)).
Proof.
  apply (proj2 (bad_link_rejected_offline (W := script)
                  "https://example.org/folder/abcdefgh" None (start Tree.server))).
  left. reflexivity.
Defined.

End TransferRun.

(** ** The maps built from a listing *)

Lemma index_fold_lookup (nodes : list entry) :
  ∀ (m : gmap (option string) node) k n,
    fold_left (λ m e, match e with
                      | Dict n => <[node_h n := n]> m
                      | NotDict => m
                      end) nodes m !! k = Some n →
    (Dict n ∈ nodes ∧ node_h n = k) ∨ m !! k = Some n.
Proof.
  induction nodes as [|e nodes IH]; intros m k n Hk; cbn [fold_left] in Hk.
  - by right.
  - apply IH in Hk as [[Hin Hh]|Hk]; [left; split; [by right|done]|].
    destruct e as [|n0]; [by right|].
    destruct (decide (node_h n0 = k)) as [<-|Hne].
    + rewrite lookup_insert_eq in Hk. injection Hk as ->. left. split; [by left|done].
    + rewrite lookup_insert_ne in Hk by done. by right.
Qed.

Lemma index_nodes_key (nodes : list entry) (k : option string) (n : node) :
  index_nodes nodes !! k = Some n → Dict n ∈ nodes ∧ node_h n = k.
Proof.
  intros Hk. apply index_fold_lookup in Hk as [?|Hk]; [done|].
  by rewrite lookup_empty in Hk.
Qed.

Lemma index_fold_untouched (nodes : list entry) (k : option string) :
  (∀ n, Dict n ∈ nodes → node_h n ≠ k) →
  ∀ m : gmap (option string) node,
    fold_left (λ m e, match e with
                      | Dict n => <[node_h n := n]> m
                      | NotDict => m
                      end) nodes m !! k = m !! k.
Proof.
  induction nodes as [|e nodes IH]; intros Hno m; cbn [fold_left]; [done|].
  rewrite IH by (intros n Hn; apply Hno; by right).
  destruct e as [|n0]; [done|]. apply lookup_insert_ne. apply Hno. by left.
Qed.

Lemma index_fold_keeps (nodes : list entry) (k : option string) :
  ∀ m : gmap (option string) node,
    is_Some (m !! k) →
    is_Some (fold_left (λ m e, match e with
                               | Dict n => <[node_h n := n]> m
                               | NotDict => m
                               end) nodes m !! k).
Proof.
  induction nodes as [|e nodes IH]; intros m Hm; cbn [fold_left]; [done|].
  apply IH. destruct e as [|n0]; [done|].
  destruct (decide (node_h n0 = k)) as [<-|Hne].
  - rewrite lookup_insert_eq. eauto.
  - by rewrite lookup_insert_ne.
Qed.

(** X14: the handle index holds, under each key, a dict entry of the
    listing that carries that handle; every dict entry's handle is indexed;
    and among entries with the same handle the last one is the one found. *)
Theorem index_nodes_lookup (nodes : list entry) :
  (∀ k n, index_nodes nodes !! k = Some n → Dict n ∈ nodes ∧ node_h n = k)
  ∧ (∀ n, Dict n ∈ nodes → is_Some (index_nodes nodes !! node_h n))
  ∧ (∀ pre n post,
       nodes = pre ++ Dict n :: post →
       (∀ n', Dict n' ∈ post → node_h n' ≠ node_h n) →
       index_nodes nodes !! node_h n = Some n).
Proof.
  split; [|split].
  - intros k n. apply index_nodes_key.
  - intros n Hin. apply list_elem_of_split in Hin as (pre & post & ->).
    unfold index_nodes. rewrite fold_left_app. cbn [fold_left].
    apply index_fold_keeps. rewrite lookup_insert_eq. eauto.
  - intros pre n post -> Hpost. unfold index_nodes.
    rewrite fold_left_app. cbn [fold_left].
    rewrite index_fold_untouched by done. apply lookup_insert_eq.
Qed.

Lemma self_parent_walk (by_h : gmap (option string) node)
    (names : gmap string string) (target : option string) (n : node) (h : string) :
  by_h !! Some h = Some n → node_h n = Some h → node_p n = Some h →
  target ≠ Some h →
  ∀ fuel parts, full_path_walk fuel by_h names target (Some n) parts
                = Raise NonTermination.
Proof.
  intros Hby Hh Hp Ht. induction fuel as [|fuel IH]; intros parts; [done|].
  cbn [full_path_walk].
  assert (Htr : node_truthy n = true).
  { unfold node_truthy. rewrite Hh. by rewrite bool_decide_true by eauto. }
  rewrite Htr, Hp, Hby. rewrite bool_decide_true by eauto. cbn [andb].
  rewrite ?Htr. destruct (bool_decide (node_t n = Some 1)); cbn [andb]; [|apply IH].
  rewrite Hh. destruct target as [t|]; [|apply IH].
  rewrite (bool_decide_false (Some h = Some t)) by congruence.
  rewrite andb_false_r. apply IH.
Qed.

(** X15: when an indexed node is its own parent (and is not the target
    subfolder), the parent-chain walk from it never ends, whatever the
    bound on its iterations: [full_path] does not return. *)
Theorem full_path_self_parent_diverges (by_h : gmap (option string) node)
    (names : gmap string string) (target : option string) (n : node) (h : string) :
  by_h !! Some h = Some n → node_h n = Some h → node_p n = Some h →
  target ≠ Some h →
  (∀ fuel parts, full_path_walk fuel by_h names target (Some n) parts
                 = Raise NonTermination)
  ∧ full_path by_h names target h = Raise NonTermination.
Proof.
  intros Hby Hh Hp Ht. split; [by apply (self_parent_walk _ _ _ _ h)|].
  unfold full_path. rewrite Hby.
  by rewrite (self_parent_walk by_h names target n h Hby Hh Hp Ht).
Qed.

Lemma full_path_self_parent_diverges_witness :
  let n := {| node_h := Some "hS"; node_p := Some "hS"; node_t := Some 1;
              node_k := None; node_a := None |} in
  full_path (index_nodes [Dict n]) ∅ None "hS" = Raise NonTermination.
Proof.
  intros n.
  refine (proj2 (full_path_self_parent_diverges (index_nodes [Dict n]) ∅ None n "hS"
                   _ _ _ _)); [vm_compute; reflexivity|reflexivity..|discriminate].
Defined.

Lemma index_nodes_lookup_witness :
  index_nodes (Tree.nodes ++ [Dict Tree.g]) !! Some "hF" = Some Tree.f.
Proof.
  refine (proj2 (proj2 (index_nodes_lookup (Tree.nodes ++ [Dict Tree.g])))
            [Dict Tree.root; Dict Tree.A; Dict Tree.B] Tree.f [Dict Tree.g] _ _).
  - reflexivity.
  - intros n' Hin. apply list_elem_of_singleton in Hin. injection Hin as ->.
    discriminate.
Defined.

Lemma eligible_unscoped (n : node) (h : string) :
  eligible None (Dict n) = Some (h, n) ↔ node_t n = Some 0 ∧ node_h n = Some h.
Proof.
  unfold eligible. case_bool_decide as Ht; cbn [negb].
  - destruct (node_h n) as [h'|].
    + split; [by intros [= ->]|by intros (_ & [= ->])].
    + split; [done|by intros (_ & ?)].
  - split; [done|by intros (? & _)].
Qed.

Lemma allowed_set_active (nodes : list entry) (by_h : gmap (option string) node)
    (t : string) :
  target_active by_h (Some t) = true →
  ∃ res, allowed_set nodes by_h (Some t) = Ok (Some res).
Proof.
  intros Ha. unfold allowed_set. rewrite Ha. unfold descendants.
  destruct (walk_spec nodes t (length nodes + 2) [t] ∅) as (res & Hw & _).
  { pose proof (pending_le nodes ∅). cbn [length]. lia. }
  { intros x Hx. apply list_elem_of_singleton in Hx as ->. done. }
  { intros x Hx. by apply not_elem_of_empty in Hx. }
  { right. by apply list_elem_of_singleton. }
  { intros x y Hx. by apply not_elem_of_empty in Hx. }
  rewrite Hw. by exists res.
Qed.

(** X16: the allowed set is always computed, and the file loop takes a
    listing entry exactly when it is a file node with a handle that, when a
    target subfolder is in force, is reachable from the target through
    parent links; a target that is empty or not in the listing does not
    restrict anything. *)
Theorem file_loop_scope (nodes : list entry) (by_h : gmap (option string) node)
    (target : option string) (n : node) (h : string) :
  ∃ allowed,
    allowed_set nodes by_h target = Ok allowed
    ∧ (eligible allowed (Dict n) = Some (h, n)
       ↔ node_t n = Some 0 ∧ node_h n = Some h
         ∧ ∀ t, target = Some t → target_active by_h target = true →
                rtc (edge nodes) t h).
Proof.
  destruct target as [t|].
  - destruct (target_active by_h (Some t)) eqn:Ha.
    + destruct (allowed_set_active nodes by_h t Ha) as [res Hres].
      exists (Some res). split; [done|].
      rewrite (eligible_scoped nodes by_h t res n h Hres).
      split.
      * intros (? & ? & ?). split; [done|]. split; [done|].
        by intros t' [= <-] _.
      * intros (? & ? & Hr). split; [done|]. split; [done|]. by apply Hr.
    + exists None. split; [by unfold allowed_set; rewrite Ha|].
      rewrite eligible_unscoped. split.
      * intros (? & ?). split; [done|]. split; [done|]. by intros t' _ ?.
      * by intros (? & ? & _).
  - exists None. split; [done|]. rewrite eligible_unscoped. split.
    + intros (? & ?). split; [done|]. split; [done|]. by intros t' ?.
    + by intros (? & ? & _).
Qed.

Lemma file_loop_scope_witness :
  ∃ allowed,
    allowed_set Tree.nodes Tree.by_h (Some "hB") = Ok allowed
    ∧ eligible allowed (Dict Tree.f) = Some ("hF", Tree.f).
Proof.
  destruct (file_loop_scope Tree.nodes Tree.by_h (Some "hB") Tree.f "hF")
    as (allowed & Hal & Hiff).
  exists allowed. split; [exact Hal|]. apply Hiff.
  split; [reflexivity|]. split; [reflexivity|].
  intros t Ht _. injection Ht as <-. apply rtc_once.
  exists Tree.f. split; [|split; reflexivity].
  unfold Tree.nodes. do 3 apply list_elem_of_further. apply list_elem_of_here.
Defined.

Section NamesInvariant.
Context `{ExternalLib}.

Lemma attrs_name_nonempty (attrs : json) (nm : string) :
  attrs_name attrs = Some nm → nm ≠ "".
Proof.
  unfold attrs_name. destruct attrs as [| | | | |?|items]; try done.
  destruct (assoc_get "n" items) as [[| | | |s| |]|]; try done.
  unfold str_truthy. destruct (String.eqb_spec s ""); cbn [negb]; [done|].
  by intros [= <-].
Qed.

Lemma decrypt_names_entries (shared : bytes) (nodes : list entry) :
  ∀ (l : list entry) (m names : gmap string string),
    (∀ e, e ∈ l → e ∈ nodes) →
    foldM_result (names_step shared) m l = Ok names →
    ∀ h nm, names !! h = Some nm →
      m !! h = Some nm
      ∨ ∃ n kb a attrs,
          Dict n ∈ nodes ∧ node_h n = Some h ∧ node_key_bytes shared n = Some kb
          ∧ node_a n = Some a ∧ _decrypt_attrs a kb = Ok attrs
          ∧ attrs_name attrs = Some nm.
Proof.
  induction l as [|e l IH]; intros m names Hsub Hf h nm Hl; cbn [foldM_result] in Hf.
  - inversion Hf; subst. by left.
  - destruct (names_step shared m e) as [m'|] eqn:Hs; [|done]. rewrite bind_Ok in Hf.
    destruct (IH m' names (λ e' He', Hsub e' (list_elem_of_further _ _ _ He')) Hf h nm Hl)
      as [Hm'|?]; [|by right].
    apply names_step_inv in Hs
      as [->|(n & h' & kb & a & attrs & nm' & -> & Hh & Hk & Ha & Hd & Hn & ->)];
      [by left|].
    destruct (decide (h' = h)) as [->|Hne].
    + rewrite lookup_insert_eq in Hm'. injection Hm' as ->. right.
      exists n, kb, a, attrs. split; [apply Hsub; by left|done].
    + rewrite lookup_insert_ne in Hm' by done. by left.
Qed.

(** X17: every name in the name map is non-empty and comes from a dict
    entry of the listing with that handle, whose key decrypted and whose
    attributes decrypted to a mapping holding that name. *)
Theorem decrypt_names_sound (shared : bytes) (nodes : list entry)
    (names : gmap string string) (h nm : string) :
  decrypt_names shared nodes = Ok names → names !! h = Some nm →
  nm ≠ ""
  ∧ ∃ n kb a attrs,
      Dict n ∈ nodes ∧ node_h n = Some h ∧ node_key_bytes shared n = Some kb
      ∧ node_a n = Some a ∧ _decrypt_attrs a kb = Ok attrs
      ∧ attrs_name attrs = Some nm.
Proof.
  intros Hd Hl.
  destruct (decrypt_names_entries shared nodes nodes ∅ names (λ e He, He) Hd h nm Hl)
    as [Hm|(n & kb & a & attrs & Hin & Hh & Hk & Ha & Hda & Hn)].
  - by rewrite lookup_empty in Hm.
  - split; [by apply (attrs_name_nonempty attrs)|]. by exists n, kb, a, attrs.
Qed.

End NamesInvariant.

Section NamesRun.
Import Toy.

Lemma decrypt_names_sound_witness :
  "f.txt" ≠ ""
  ∧ ∃ n kb a attrs,
      Dict n ∈ Tree.nodes ∧ node_h n = Some "hF"
      ∧ node_key_bytes Tree.shared_key n = Some kb
      ∧ node_a n = Some a ∧ _decrypt_attrs a kb = Ok attrs
      ∧ attrs_name attrs = Some "f.txt".
Proof.
  apply (decrypt_names_sound Tree.shared_key Tree.nodes Tree.names "hF" "f.txt");
    vm_compute; reflexivity.
Defined.

End NamesRun.

(** ** Events of a folder download *)

Section FolderEvents.
Context `{ExternalLib} {W : Type} `{World W}.

Lemma stream_chunks_per_file (path : Path) (name : string) (size : Z)
    (idx : option Z) (chunks : list bytes) :
  ∀ (c : ctr_cipher) (d : Z) (st : io_state W),
    ∃ evs, io_events (stream_chunks path name size idx chunks c d st).1
           = io_events st ++ evs
      ∧ done_count evs = 0%nat ∧ Forall per_file evs.
Proof.
  induction chunks as [|chunk rest IH]; intros c d st; cbn [stream_chunks].
  - exists []. rewrite app_nil_r. by repeat split.
  - destruct (bytes_truthy chunk); [|apply IH].
    unfold io_bind at 1, io_lift.
    destruct (ctr_decrypt c chunk) as [[dec c']|e].
    + unfold io_bind at 1, file_write at 1. unfold io_bind at 1, _emit at 1.
      cbn [io_world io_events io_files].
      match goal with |- context [stream_chunks _ _ _ _ rest ?c1 ?d1 ?st1] =>
        destruct (IH c1 d1 st1) as (evs & Hev & Hn & Hp)
      end.
      cbn [io_events] in Hev.
      eexists (_ :: evs). rewrite Hev, <- app_assoc. split; [reflexivity|]. split.
      * change (?x :: evs) with ([x] ++ evs).
        rewrite done_count_app, done_count_progress, Hn. by case_decide.
      * by constructor.
    + exists []. rewrite app_nil_r. by repeat split.
Qed.

Lemma fetch_body_per_file (g_url : string) (path : Path) (name : string)
    (size : Z) (idx : option Z) (c : ctr_cipher) (st : io_state W) :
  ∃ evs, io_events (fetch_body g_url path name size idx c st).1 = io_events st ++ evs
    ∧ done_count evs = 0%nat ∧ Forall per_file evs.
Proof.
  unfold fetch_body, io_bind at 1, with_world.
  destruct (http_get (io_world st) g_url) as [w [msg|chunks ending]].
  - exists []. rewrite app_nil_r. by repeat split.
  - unfold io_bind at 1. rewrite open_wb_run. cbn [io_world io_events io_files].
    destruct (fs_open w path) as [w' [[]|e]]; cbn [fst snd].
    2:{ exists []. rewrite app_nil_r. by repeat split. }
    unfold io_bind at 1.
    match goal with |- context [stream_chunks _ _ _ _ chunks c 0 ?st1] =>
      destruct (stream_chunks_per_file path name size idx chunks c 0 st1)
        as (evs & Hev & Hn & Hp);
      destruct (stream_chunks path name size idx chunks c 0 st1) as [st2 [d|e]]
    end; cbn [fst io_events] in Hev.
    + exists evs. split; [|done]. by destruct ending.
    + by exists evs.
Qed.

(** one iteration: either nothing is added, or one path and one [done] *)
Lemma file_step_trace (cx : folder_ctx) (results : list Path) (idx : Z)
    (e : entry) (st : io_state W) :
  ∃ evs, io_events (file_step cx (results, idx) e st).1 = io_events st ++ evs
    ∧ Forall per_file evs
    ∧ match (file_step cx (results, idx) e st).2 with
      | Ok (results', idx') =>
        (results' = results ∧ idx' = idx ∧ evs = [])
        ∨ (∃ p, results' = results ++ [p] ∧ idx' = idx + 1
             ∧ done_count evs = 1%nat)
      | Raise _ => done_count evs = 0%nat
      end.
Proof.
  assert (Hskip : ∀ w : W, ∃ evs,
            io_events ({| io_world := w; io_events := io_events st;
                          io_files := io_files st |}, Ok (results, idx)).1
            = io_events st ++ evs ∧ Forall per_file evs
            ∧ ((results = results ∧ idx = idx ∧ evs = [])
               ∨ ∃ p, results = results ++ [p] ∧ idx = idx + 1
                   ∧ done_count evs = 1%nat)).
  { intros w. exists []. cbn. rewrite app_nil_r. split; [done|]. split; [done|by left]. }
  assert (Hfail : ∀ (w : W) e0, ∃ evs,
            io_events ({| io_world := w; io_events := io_events st;
                          io_files := io_files st |}, @Raise (list Path * Z) e0).1
            = io_events st ++ evs ∧ Forall per_file evs ∧ done_count evs = 0%nat).
  { intros w e0. exists []. cbn. rewrite app_nil_r. by repeat split. }
  unfold file_step.
  destruct (eligible (cx_allowed cx) e) as [[h n]|]; [|destruct st; apply Hskip].
  destruct (node_key_bytes (cx_shared cx) n) as [kb|]; [|destruct st; apply Hskip].
  destruct (negb (kb_usable (Some kb))); [destruct st; apply Hskip|].
  cbv beta iota zeta delta [io_bind io_lift io_raise io_ret call with_world _emit].
  destruct (_derive_key_iv_from_k (_bytes_to_a32 kb)) as [[key_bytes iv8]|e0];
    [|destruct st; apply Hfail].
  destruct (resolve_rel _ _ _ h) as [rel|e0]; [|destruct st; apply Hfail].
  rewrite mkdir_parents_run.
  destruct (fs_mkdir (io_world st) _) as [w0 [[]|e0]]; cbn [fst snd];
    [|apply (Hfail w0 e0)].
  cbn [io_world io_events io_files].
  destruct (api_node w0 (cx_folder_id cx) h) as [w [gi|e0]]; [|apply Hfail].
  cbn [io_world io_events io_files].
  destruct (reply_g gi) as [g_url|]; [|apply Hskip].
  destruct (reply_s gi) as [size|]; [|apply Hskip].
  destruct (AES_new_CTR key_bytes iv8) as [cipher|e0].
  { match goal with |- context [fetch_body ?u ?p ?n0 ?s ?i ?c ?st1] =>
      destruct (fetch_body_per_file u p n0 s i c st1) as (evs & Hev & Hn & Hp);
      destruct (fetch_body u p n0 s i c st1) as [st2 [[]|e0]]
    end; cbn [fst io_events] in Hev.
    - eexists (_ :: evs ++ [_]). cbn [fst snd io_events].
      rewrite Hev, <- !app_assoc. split; [reflexivity|]. split.
      + constructor; [done|]. apply Forall_app. split; [done|by constructor].
      + right. eexists. split; [reflexivity|]. split; [reflexivity|].
        change (?x :: evs ++ ?y) with ([x] ++ evs ++ y).
        rewrite !done_count_app, !done_count_progress, Hn.
        repeat case_decide; done.
    - eexists (_ :: evs). cbn [fst snd]. rewrite Hev, <- app_assoc.
      split; [reflexivity|]. split; [by constructor|].
      change (?x :: evs) with ([x] ++ evs).
      rewrite done_count_app, done_count_progress, Hn. by case_decide. }
  eexists [_]. cbn [fst snd io_events]. split; [reflexivity|].
  split; [by constructor|]. rewrite done_count_progress. by case_decide.
Qed.

Lemma file_loop_trace (cx : folder_ctx) (todo : list entry) :
  ∀ (results : list Path) (idx : Z) (st : io_state W),
    ∃ evs, io_events (io_foldM (file_step cx) (results, idx) todo st).1
           = io_events st ++ evs
      ∧ Forall per_file evs
      ∧ match (io_foldM (file_step cx) (results, idx) todo st).2 with
        | Ok (results', idx') =>
          ∃ extra, results' = results ++ extra
            ∧ idx' = idx + Z.of_nat (length extra)
            ∧ done_count evs = length extra
        | Raise _ => True
        end.
Proof.
  induction todo as [|e todo IH]; intros results idx st; cbn [io_foldM].
  - exists []. cbn. rewrite app_nil_r. split; [done|]. split; [done|].
    exists []. rewrite app_nil_r. split; [done|]. split; [cbn; lia|done].
  - unfold io_bind.
    destruct (file_step_trace cx results idx e st) as (evs1 & Hev1 & Hp1 & Hr1).
    destruct (file_step cx (results, idx) e st) as [st1 [[r1 i1]|e1]];
      cbn [fst snd] in *.
    + destruct (IH r1 i1 st1) as (evs2 & Hev2 & Hp2 & Hr2).
      exists (evs1 ++ evs2). rewrite Hev2, Hev1, <- app_assoc.
      split; [done|]. split; [by apply Forall_app|].
      destruct (io_foldM (file_step cx) (r1, i1) todo st1) as [st2 [[r2 i2]|e2]];
        cbn [fst snd] in *; [|done].
      destruct Hr2 as (extra & -> & -> & Hd2). rewrite done_count_app, Hd2.
      destruct Hr1 as [(-> & -> & ->)|(p & -> & -> & Hd1)].
      * exists extra. by repeat split.
      * exists (p :: extra). rewrite <- app_assoc, Hd1. cbn [app length].
        split; [done|]. split; lia.
    + exists evs1. by repeat split.
Qed.

(** X18: a folder download that returns has emitted one [done] event per
    returned path plus the final summary, which is its last event and
    reports the number of paths; one that raises has emitted no summary. *)
Theorem run_folder_events (cx : folder_ctx) (todo : list entry) (st : io_state W) :
  ∃ evs,
    io_events (run_folder cx todo st).1 = io_events st ++ evs
    ∧ match (run_folder cx todo st).2 with
      | Ok results =>
        done_count evs = S (length results)
        ∧ last evs = Some (summary_event results)
      | Raise _ => Forall per_file evs
      end.
Proof.
  unfold run_folder. unfold io_bind at 1 4. rewrite mkdir_parents_run.
  destruct (fs_mkdir (io_world st) (cx_out_dir cx)) as [w0 [[]|e]]; cbn [fst snd].
  2:{ exists []. cbn. rewrite app_nil_r. split; [done|constructor]. }
  unfold file_loop, io_bind, _emit, io_ret.
  set (st0 := {| io_world := w0; io_events := io_events st;
                 io_files := io_files st |}).
  destruct (file_loop_trace cx todo [] 0 st0) as (evs & Hev & Hp & Hr).
  destruct (io_foldM (file_step cx) ([], 0) todo st0) as [st1 [[results idx]|e]];
    cbn [fst snd io_events] in *.
  - destruct Hr as (extra & Hre & _ & Hd). cbn [app] in Hre. subst extra.
    exists (evs ++ [summary_event results]). rewrite Hev, <- app_assoc.
    split; [done|]. split; [|by rewrite last_snoc].
    rewrite done_count_app, Hd. unfold done_count.
    rewrite filter_cons, filter_nil. cbn [summary_event ev_stage].
    rewrite decide_True by done. cbn [length]. lia.
  - by exists evs.
Qed.

End FolderEvents.

(** ** Scoping and keys of a folder download *)

Section FolderScope.
Context `{ExternalLib} {W : Type} `{World W}.

Lemma io_foldM_ext {A S} (f g : S → A → M W S) (l : list A) :
  (∀ s x st, f s x st = g s x st) →
  ∀ s st, io_foldM f s l st = io_foldM g s l st.
Proof.
  intros Hfg. induction l as [|x l IH]; intros s st; cbn [io_foldM]; [done|].
  unfold io_bind. rewrite Hfg. destruct (g s x st) as [st' [s'|e]]; [apply IH|done].
Qed.

Lemma io_bind_ext {A B} (m : M W A) (k1 k2 : A → M W B) (st : io_state W) :
  (∀ a st', k1 a st' = k2 a st') → io_bind m k1 st = io_bind m k2 st.
Proof. intros Hk. unfold io_bind. destruct (m st) as [st' [a|e]]; [apply Hk|done]. Qed.

Lemma full_path_walk_inactive (by_h : gmap (option string) node)
    (names : gmap string string) (t : string) :
  (∀ k n, by_h !! k = Some n → node_h n = k) →
  target_active by_h (Some t) = false →
  ∀ fuel cur parts,
    full_path_walk fuel by_h names (Some t) cur parts
    = full_path_walk fuel by_h names None cur parts.
Proof.
  intros Hkey Hin. induction fuel as [|fuel IH]; intros cur parts; [done|].
  cbn [full_path_walk]. destruct cur as [c|]; [|done].
  destruct (node_truthy c && _); [|done].
  destruct (by_h !! node_p c) as [c'|] eqn:Hc'; [|done].
  destruct (node_truthy c' && _); [|apply IH].
  assert (Hat : str_truthy t && bool_decide (node_h c' = Some t) = false).
  { destruct (str_truthy t) eqn:Ht; [|done]. cbn [andb].
    apply bool_decide_eq_false. intros Hh.
    apply Hkey in Hc' as Hk. rewrite Hh in Hk. rewrite <- Hk in Hc'.
    unfold target_active in Hin. rewrite Ht, Hc' in Hin.
    by rewrite bool_decide_true in Hin by eauto. }
  rewrite Hat. apply IH.
Qed.

Lemma resolve_rel_inactive (by_h : gmap (option string) node)
    (names : gmap string string) (t h : string) :
  (∀ k n, by_h !! k = Some n → node_h n = k) →
  target_active by_h (Some t) = false →
  resolve_rel by_h names (Some t) h = resolve_rel by_h names None h.
Proof.
  intros Hkey Hin. unfold resolve_rel, full_path.
  rewrite (full_path_walk_inactive by_h names t Hkey Hin).
  destruct (full_path_walk _ _ _ None _ _) as [parts|]; [|done].
  rewrite !bind_Ok. by rewrite Hin.
Qed.

(** X19: a target subfolder that is empty or not in the listing changes
    nothing: the download is the one of the whole folder. *)
Theorem inactive_target_downloads_all (shared : bytes) (folder_id t : string)
    (out_dir : Path) (nodes : list entry) (st : io_state W) :
  target_active (index_nodes nodes) (Some t) = false →
  download_nodes shared folder_id (Some t) out_dir nodes st
  = download_nodes shared folder_id None out_dir nodes st.
Proof.
  intros Hin. unfold download_nodes, resolve_ctx, allowed_set. rewrite Hin.
  unfold io_bind, io_lift.
  destruct (decrypt_names shared nodes) as [names|e]; [|done].
  rewrite !bind_Ok. unfold run_folder. cbn [cx_out_dir].
  apply io_bind_ext. intros _ st1. unfold file_loop, io_bind.
  rewrite (io_foldM_ext _ (file_step
             {| cx_shared := shared; cx_folder_id := folder_id; cx_target := None;
                cx_out_dir := out_dir; cx_by_h := index_nodes nodes;
                cx_names := names; cx_allowed := None |})); [done|].
  intros [results idx] e st0. unfold file_step.
  cbn [cx_shared cx_folder_id cx_target cx_out_dir cx_by_h cx_names cx_allowed].
  destruct (eligible None e) as [[h n]|]; [|done].
  destruct (node_key_bytes shared n) as [kb|]; [|done].
  destruct (negb _); [done|]. unfold io_bind, io_lift.
  destruct (_derive_key_iv_from_k _) as [[key_bytes iv8]|]; [|done].
  by rewrite (resolve_rel_inactive _ _ t) by (apply index_nodes_key || done).
Qed.

Lemma node_key_bytes_bad_shared (shared : bytes) (n : node) :
  aes_key_ok shared = false → node_key_bytes shared n = None.
Proof.
  intros Hk. unfold node_key_bytes. destruct (node_k n) as [k|]; [|done].
  destruct (_mega_b64_decode _) as [enc|]; [|done].
  rewrite bind_Ok. unfold aes_ecb_decrypt. by rewrite Hk.
Qed.

Lemma allowed_set_returns (nodes : list entry) (by_h : gmap (option string) node)
    (target : option string) :
  ∃ allowed, allowed_set nodes by_h target = Ok allowed.
Proof.
  unfold allowed_set. destruct target as [t|]; [|eauto].
  destruct (target_active by_h (Some t)); [|eauto].
  unfold descendants.
  destruct (walk_spec nodes t (length nodes + 2) [t] ∅) as (res & Hw & _).
  { pose proof (pending_le nodes ∅). cbn [length]. lia. }
  { intros x Hx. apply list_elem_of_singleton in Hx as ->. done. }
  { intros x Hx. by apply not_elem_of_empty in Hx. }
  { right. by apply list_elem_of_singleton. }
  { intros x y Hx. by apply not_elem_of_empty in Hx. }
  rewrite Hw. eauto.
Qed.

(** X20: when the shared key is not 16, 24 or 32 bytes long, no node key
    decrypts: the folder download creates the output directory and nothing
    else; it makes no request, writes no file and returns the empty list
    after the summary event.  The only error it can end in is the one the
    file system raises for the output directory. *)
Theorem unusable_shared_key_downloads_nothing (shared : bytes)
    (folder_id : string) (target : option string) (out_dir : Path)
    (nodes : list entry) (st : io_state W) (w : W) (r : result ()) :
  aes_key_ok shared = false →
  fs_mkdir (io_world st) out_dir = (w, r) →
  download_nodes shared folder_id target out_dir nodes st
  = match r with
    | Ok _ => ({| io_world := w;
                  io_events := io_events st ++ [summary_event []];
                  io_files := io_files st |}, Ok [])
    | Raise e => ({| io_world := w; io_events := io_events st;
                     io_files := io_files st |}, Raise e)
    end.
Proof.
  intros Hk Hmk.
  assert (Hnames : ∀ l m, foldM_result (names_step shared) m l = Ok m).
  { induction l as [|e l IH]; intros m; cbn [foldM_result]; [done|].
    destruct e as [|n]; [cbn [names_step]; rewrite bind_Ok; apply IH|].
    rewrite names_step_bad_key by (by rewrite node_key_bytes_bad_shared).
    rewrite bind_Ok. apply IH. }
  unfold download_nodes, resolve_ctx, decrypt_names. rewrite Hnames, bind_Ok.
  destruct (allowed_set_returns nodes (index_nodes nodes) target) as [allowed ->].
  rewrite bind_Ok. unfold io_bind at 1, io_lift.
  set (cx := {| cx_shared := shared |}).
  assert (Hloop : ∀ l acc st0, io_foldM (file_step cx) acc l st0 = (st0, Ok acc)).
  { induction l as [|e l IH]; intros acc st0; cbn [io_foldM]; [done|].
    unfold io_bind. destruct e as [|n].
    - destruct acc as [results idx]. cbn. apply IH.
    - rewrite file_step_bad_key by (by rewrite node_key_bytes_bad_shared).
      apply IH. }
  unfold run_folder. unfold io_bind at 1. rewrite mkdir_parents_run.
  cbn [cx_out_dir cx]. rewrite Hmk. destruct r as [[]|e]; cbn [fst snd]; [|done].
  unfold file_loop, io_bind. rewrite Hloop. reflexivity.
Qed.



(** X25: a file-system error on one file ends the whole folder download.
    When the parent directory of an eligible file cannot be created, or the
    file cannot be opened (its path comes from names the server sent), the
    loop raises that error at once: the remaining entries are not attempted,
    nothing is written for this file and the results gathered so far are
    not returned. *)
Theorem file_step_fs_refusal (cx : folder_ctx) (results : list Path)
    (idx : Z) (e : entry) (post : list entry) (st : io_state W) (h : string)
    (n : node) (kb : bytes) (rel : Path) :
  eligible (cx_allowed cx) e = Some (h, n) →
  node_key_bytes (cx_shared cx) n = Some kb →
  Forall is_byte kb → length kb = 16%nat →
  resolve_rel (cx_by_h cx) (cx_names cx) (cx_target cx) h = Ok rel →
  (∀ w1 err,
     fs_mkdir (io_world st) (path_join (cx_out_dir cx) (path_parent rel))
     = (w1, Raise err) →
     io_foldM (file_step cx) (results, idx) (e :: post) st
     = ({| io_world := w1; io_events := io_events st; io_files := io_files st |},
        Raise err))
  ∧ (∀ w1 w2 w3 w4 gi g_url size chunks ending err,
       fs_mkdir (io_world st) (path_join (cx_out_dir cx) (path_parent rel))
       = (w1, Ok ()) →
       api_node w1 (cx_folder_id cx) h = (w2, Ok gi) →
       reply_g gi = Some g_url → reply_s gi = Some size →
       http_get w2 g_url = (w3, HttpStream chunks ending) →
       fs_open w3 (path_join (cx_out_dir cx) rel) = (w4, Raise err) →
       io_foldM (file_step cx) (results, idx) (e :: post) st
       = ({| io_world := w4;
             io_events := io_events st
               ++ [progress_event "starting" (path_str rel) size 0 (Some (idx + 1))];
             io_files := io_files st |}, Raise err)).
Proof.
  intros Hel Hkb Hb Hl Hrel.
  assert (Hus : kb_usable (Some kb) = true) by (destruct kb; [done|done]).
  split.
  - intros w1 err Hmk. cbn [io_foldM]. unfold io_bind at 1.
    unfold file_step. rewrite Hel, Hkb, Hus. cbn [negb].
    cbv beta iota zeta delta [io_bind io_lift io_raise io_ret call with_world _emit].
    rewrite (derive_node_key kb Hb Hl), Hrel, mkdir_parents_run, Hmk.
    reflexivity.
  - intros w1 w2 w3 w4 gi g_url size chunks ending err Hmk Hapi Hg Hs Hget Hopen.
    cbn [io_foldM]. unfold io_bind at 1.
    unfold file_step. rewrite Hel, Hkb, Hus. cbn [negb].
    cbv beta iota zeta delta [io_bind io_lift io_raise io_ret call with_world _emit].
    rewrite (derive_node_key kb Hb Hl), Hrel, mkdir_parents_run, Hmk.
    cbn [fst snd io_world io_events io_files]. rewrite Hapi.
    cbn [io_world io_events io_files].
    rewrite Hg, Hs. unfold AES_new_CTR, aes_key_ok. rewrite Hl.
    rewrite bool_decide_true by (by apply list_elem_of_here).
    cbn [negb Nat.leb length repeat].
    match goal with |- context [fetch_body ?u ?p ?n0 ?s ?i ?c ?st1] =>
      rewrite (fetch_body_open_raises u p n0 s i c st1 w3 w4 chunks ending err
                 Hget Hopen)
    end.
    reflexivity.
Qed.


End FolderScope.

Section FolderScopeRun.
Import Toy.

Lemma inactive_target_downloads_all_witness :
  download_nodes Tree.shared_key "fid" (Some "hZ") [] Tree.nodes (start Tree.server)
  = download_nodes Tree.shared_key "fid" None [] Tree.nodes (start Tree.server).
Proof.
  apply (inactive_target_downloads_all (W := script)). vm_compute. reflexivity.
Defined.

Lemma unusable_shared_key_downloads_nothing_witness :
  download_nodes (repeat 1 12) "fid" None [] Tree.nodes (start Tree.server)
  = ({| io_world := Tree.server; io_events := [summary_event []]; io_files := ∅ |},
     Ok []).
Proof.
  apply (unusable_shared_key_downloads_nothing (W := script) (repeat 1 12) "fid" None []
           Tree.nodes (start Tree.server) Tree.server (Ok ())); reflexivity.
Defined.


Lemma file_step_fs_refusal_witness :
  let cx := {| cx_shared := Tree.shared_key; cx_folder_id := "fid";
               cx_target := None; cx_out_dir := ["out"]; cx_by_h := Tree.by_h;
               cx_names := Tree.names; cx_allowed := None |} in
  io_foldM (file_step cx) ([], 0) [Dict Tree.f; Dict Tree.f] (start Tree.blocked_server)
  = ({| io_world := Tree.blocked_server;
        io_events := [progress_event "starting" "root/A/B/f.txt" 35 0 (Some 1)];
        io_files := ∅ |}, Raise (OSError "IsADirectoryError")).
Proof.
  intros cx.
  refine (proj2 (file_step_fs_refusal cx [] 0 (Dict Tree.f) [Dict Tree.f]
                   (start Tree.blocked_server) "hF" Tree.f (repeat 68 16)
                   ["root"; "A"; "B"; "f.txt"] _ _ _ _ _)
            Tree.blocked_server Tree.blocked_server Tree.blocked_server
            Tree.blocked_server
            {| reply_g := Some "http://media/hF"; reply_s := Some 35; reply_at := None |}
            "http://media/hF" 35
            [take 10 Tree.body_cipher; []; drop 10 Tree.body_cipher] BodyEof
            (OSError "IsADirectoryError") _ _ _ _ _ _);
    try (vm_compute; reflexivity).
  apply Forall_forall. intros x Hx%list_elem_of_In%repeat_spec. subst. done.
Defined.


End FolderScopeRun.

(** ** Progress line helpers *)

Section LineFacts.
Import ProgressLine.

Lemma len_spaces (k : Z) : len (spaces k) = Z.max 0 k.
Proof. unfold len, spaces. rewrite repeat_length. lia. Qed.

Lemma len_slice_from_neg (s : text) (k : Z) :
  0 < k → k ≤ len s → len (slice_from s (- k)) = k.
Proof.
  intros Hk Hl. unfold slice_from, len in *.
  destruct (Z.ltb_spec (- k) 0); [|lia]. rewrite length_drop. lia.
Qed.

(** X22: for every positive width the filename column has exactly that
    width: short names are padded on the right, long ones keep their tail
    behind the three-character marker; both renderers agree.  At width 0 a
    non-empty name is returned whole. *)
Theorem fit_width (s : text) (w : Z) :
  (0 < w → len (fit s w) = w)
  ∧ (3 < w → w < len s →
     fit s w = ell ++ drop (length s - Z.to_nat (w - 3)) s)
  ∧ (s ≠ [] → fit s 0 = s)
  ∧ ConsoleProgress._fit s w = fit s w.
Proof.
  split; [|split; [|split]].
  - intros Hw. unfold fit. destruct s as [|c s]; [|set (t := c :: s)].
    + unfold ljust. cbn [app]. rewrite len_spaces. change (len []) with 0. lia.
    + destruct (Z.leb_spec (len t) w).
      * unfold ljust. unfold len at 1. rewrite length_app. fold (len t).
        fold (len (spaces (w - len t))). rewrite Nat2Z.inj_add.
        fold (len t). fold (len (spaces (w - len t))). rewrite len_spaces. lia.
      * change (len ell) with 3. cbn zeta. destruct (Z.ltb_spec 0 (w - 3)).
        -- unfold len at 1. rewrite length_app, Nat2Z.inj_add.
           fold (len (slice_from t (- (w - 3)))).
           rewrite len_slice_from_neg by lia. cbn. lia.
        -- apply len_slice_from_neg; lia.
  - intros Hw Hl. unfold fit. destruct s as [|c s]; [change (len []) with 0 in Hl; lia|].
    set (t := c :: s) in *. destruct (Z.leb_spec (len t) w); [lia|].
    change (len ell) with 3. cbn zeta. destruct (Z.ltb_spec 0 (w - 3)); [|lia].
    unfold slice_from. destruct (Z.ltb_spec (- (w - 3)) 0); [|lia].
    do 2 f_equal. unfold len in *. lia.
  - intros Hs. unfold fit. destruct s as [|c s]; [done|].
    set (t := c :: s). destruct (Z.leb_spec (len t) 0).
    { unfold len, t in *. cbn [length] in *. lia. }
    change (len ell) with 3. cbn. reflexivity.
  - unfold ConsoleProgress._fit, fit. destruct s as [|c s]; [|set (t := c :: s)].
    + unfold ljust. change (len []) with 0. destruct (Z.leb_spec 0 w); [done|].
      change (len ell) with 3. cbn zeta. destruct (Z.leb_spec (w - 3) 0); [|lia].
      unfold slice_from. destruct (- w <? 0); cbn; rewrite ?drop_nil;
        unfold spaces; by rewrite Z2Nat.inj_neg || (replace (Z.to_nat (w - 0)) with 0%nat by lia).
    + destruct (Z.leb_spec (len t) w); [done|].
      change (len ell) with 3. cbn zeta.
      destruct (Z.leb_spec (w - 3) 0), (Z.ltb_spec 0 (w - 3)); done || lia.
Qed.

Lemma fit_width_witness :
  len (fit [97; 98; 99; 100; 101; 102; 103; 104] 5) = 5
  ∧ fit [97; 98; 99; 100; 101; 102; 103; 104] 5 = [226; 8364; 166; 103; 104].
Proof.
  destruct (fit_width [97; 98; 99; 100; 101; 102; 103; 104] 5) as (H1 & H2 & _).
  split; [apply H1; lia|]. rewrite H2; [reflexivity|lia|unfold len; cbn; lia].
Defined.

Lemma len_d02 (n : Z) : 0 ≤ n < 100 → len (d02 n) = 2.
Proof.
  intros Hn. unfold d02. destruct (Z.ltb_spec n 10); [done|].
  destruct (Z.to_nat n) as [|f] eqn:Hf; [lia|]. cbn [dec_digits].
  destruct (Z.ltb_spec n 10); [lia|].
  assert (n / 10 < 10) by (apply Z.div_lt_upper_bound; lia).
  destruct (Z.ltb_spec (n / 10) 10); [|lia]. done.
Qed.

(** X23: below 100 hours the ETA column is exactly 12 characters wide
    ("ETA HH:MM:SS"), so padding it to 12 adds nothing; a negative or zero
    ETA is shown as 00:00:00. *)
Theorem eta_column_width (eta : Z) :
  (eta < 360000 →
     len (eta_text eta) = 12
     ∧ pad (eta_text eta) 12 = eta_text eta
     ∧ ConsoleProgress._pad (ConsoleProgress._fmt_eta eta) 12 = eta_text eta)
  ∧ (eta ≤ 0 → eta_text eta = [69; 84; 65; 32; 48; 48; 58; 48; 48; 58; 48; 48]).
Proof.
  split.
  - intros Heta.
    assert (Hlen : len (eta_text eta) = 12).
    { unfold eta_text. cbn zeta. set (s := Z.max 0 eta).
      assert (0 ≤ s < 360000) by (unfold s; lia).
      unfold len. rewrite !length_app, !Nat2Z.inj_add.
      fold (len (d02 (s / 3600))). fold (len (d02 (s mod 3600 / 60))).
      fold (len (d02 ((s mod 3600) mod 60))).
      pose proof (Z.mod_pos_bound s 3600 ltac:(lia)).
      pose proof (Z.mod_pos_bound (s mod 3600) 60 ltac:(lia)).
      assert (0 ≤ s / 3600 < 100)
        by (split; [apply Z.div_pos; lia|apply Z.div_lt_upper_bound; lia]).
      assert (0 ≤ s mod 3600 / 60 < 100)
        by (split; [apply Z.div_pos; lia|apply Z.div_lt_upper_bound; lia]).
      rewrite !len_d02 by lia. cbn. lia. }
    split; [done|]. unfold pad, ConsoleProgress._pad, ConsoleProgress._fmt_eta.
    rewrite Hlen. cbn. by rewrite app_nil_r.
  - intros Heta. unfold eta_text. by rewrite Z.max_l by lia.
Qed.

Lemma eta_column_width_witness :
  len (eta_text 3725) = 12
  ∧ eta_text 3725 = [69; 84; 65; 32; 48; 49; 58; 48; 50; 58; 48; 53].
Proof.
  split; [|reflexivity].
  apply (proj1 (eta_column_width 3725)). lia.
Defined.

End LineFacts.
